(** * AnnieTankSCpi: the Govee H5075 collector, [govee_h5075_influx.py]

    A shallow embedding of the decode -> compose -> encode -> batch -> deliver
    pipeline of [govee_h5075_influx.py], and the properties of it that the
    design document states.

    Conventions of the embedding:
    - a Python [int] is a [Z]; a Python [float] is a primitive binary64
      [float], so the decoder's arithmetic is evaluated bit for bit;
    - [bytes] is a [list byte];
    - a Python [str] is a [string]; a character is a code point below 256;
    - a Python exception is a constructor of [exn], and a function that can
      raise returns a [result];
    - a [dict] is an association list in insertion order with unique keys;
    - what is outside the script (the clock, the radio listener, the HTTP
      endpoint, the random generator) is an argument that tells what each
      call returns.

    The embedding comes first, the properties after it. *)

From Stdlib Require Import ZArith List Lia Bool.
From Stdlib Require Import Strings.String Strings.Ascii Strings.Byte.
From Stdlib Require Import Floats.PrimFloat Floats.FloatOps Floats.SpecFloat.
From Stdlib Require Import Decimal DecimalString DecimalPos DecimalZ.
Import ListNotations.

Local Open Scope Z_scope.

(** * The embedding *)

(** ** Python values and exceptions *)

Module Py.

(** The exceptions the modelled code can meet. *)
Inductive exn : Type :=
| IndexError
| OverflowError
| ZeroDivisionError
| ValueError
| HTTPError
| ConnectionError
| CancelledError.

Inductive result (A : Type) : Type :=
| Ok (a : A)
| Raise (e : exn).
Arguments Ok {A} a.
Arguments Raise {A} e.

Definition bind {A B : Type} (m : result A) (k : A -> result B) : result B :=
  match m with
  | Ok a => k a
  | Raise e => Raise e
  end.

(** [int(x)] to [float(x)]: the nearest binary64 (ties to even), and
    [OverflowError] when the nearest value is beyond the largest finite
    one, that is from [2^1024 - 2^970] on. *)
Definition DBL_OVERFLOW : Z := 2 ^ 1024 - 2 ^ 970.

Definition float_of_int (z : Z) : result float :=
  if Z.abs z <? DBL_OVERFLOW
  then Ok (SF2Prim (binary_normalize prec emax z 0 false))
  else Raise OverflowError.

(** [i / d] for an [int] i and a [float] d. *)
Definition int_truediv_float (i : Z) (d : float) : result float :=
  bind (float_of_int i) (fun f =>
    if PrimFloat.eqb d 0%float then Raise ZeroDivisionError
    else Ok (f / d)%float).

(** [i + d] for an [int] i and a [float] d. *)
Definition int_add_float (i : Z) (d : float) : result float :=
  bind (float_of_int i) (fun f => Ok (f + d)%float).

(** [bs[lo:hi]] for [0 <= lo <= hi]: slicing never raises. *)
Definition slice {A : Type} (lo hi : nat) (l : list A) : list A :=
  firstn (hi - lo) (skipn lo l).

(** [l[i]] for [0 <= i]. *)
Definition index {A : Type} (l : list A) (i : nat) : result A :=
  match nth_error l i with
  | Some a => Ok a
  | None => Raise IndexError
  end.

Definition byte_val (b : byte) : Z := Z.of_N (Byte.to_N b).

(** [int.from_bytes(bs, "big", signed=False)]. *)
Definition int_from_bytes_big (bs : list byte) : Z :=
  fold_left (fun acc b => acc * 256 + byte_val b) bs 0.

End Py.

Import Py.

Notation "x <- m ;; k" := (Py.bind m (fun x => k))
  (at level 61, m at next level, right associativity).

(** ** The packed-24 decoder *)

(** A decoded reading: temperature, relative humidity, battery. *)
Definition reading : Type := float * float * option Z.

(** [decode_packed_24(payload)]: [Ok None] is Python's [None]. *)
Definition decode_packed_24 (payload : list byte) : result (option reading) :=
  if (List.length payload <? 5)%nat then Ok None
  else
    let raw24 := int_from_bytes_big (slice 1 4 payload) in
    let is_negative := negb (Z.land raw24 0x800000 =? 0) in
    let raw24 := Z.land raw24 0x7FFFFF in
    temp_c <- int_truediv_float raw24 10000%float ;;
    rh <- int_truediv_float (raw24 mod 1000) 10%float ;;
    let temp_c := if is_negative then (- temp_c)%float else temp_c in
    b4 <- index payload 4 ;;
    batt <- (if byte_val b4 <=? 100
             then b4' <- index payload 4 ;; Ok (Some (byte_val b4'))
             else Ok None) ;;
    Ok (Some (temp_c, rh, batt)).

(** The payload of the source's docstring. *)
Definition example_payload : list byte := [x00; x01; x3f; x91; x64; x00].

(** The bytes 1..3 of a payload as the unsigned big-endian integer. *)
Definition raw24_of (payload : list byte) : Z :=
  int_from_bytes_big (slice 1 4 payload).

(** A byte with its top bit forced to [v]. *)
Definition byte_with_top_bit (v : bool) (b : byte) : byte :=
  let '(b0, (b1, (b2, (b3, (b4, (b5, (b6, _))))))) := Byte.to_bits b in
  Byte.of_bits (b0, (b1, (b2, (b3, (b4, (b5, (b6, v))))))).

(** The payload with bit 23 of its 24-bit field forced to [v]: the top bit of
    the byte at offset 1. *)
Definition with_sign_bit (v : bool) (payload : list byte) : list byte :=
  match payload with
  | b0 :: b1 :: rest => b0 :: byte_with_top_bit v b1 :: rest
  | _ => payload
  end.

(** The payload with the byte at offset 4 replaced by [b]. *)
Definition with_battery_byte (b : byte) (payload : list byte) : list byte :=
  match payload with
  | b0 :: b1 :: b2 :: b3 :: _ :: rest => b0 :: b1 :: b2 :: b3 :: b :: rest
  | _ => payload
  end.

(** Humidity: the quotient of [0..999] by 10.0 lies in [0, 100). *)
Definition humidity_in_range (n : nat) : bool :=
  match float_of_int (Z.of_nat n) with
  | Ok h => (PrimFloat.leb 0 (h / 10) && PrimFloat.ltb (h / 10) 100)%float
  | Raise _ => false
  end.


(** ** Python strings *)

Module PyStr.

Local Open Scope string_scope.

Definition backslash : ascii := "092"%char.
Definition dquote : ascii := "034"%char.

(** [s.replace(old, new)] scans left to right and replaces the occurrences of
    [old] that do not overlap.  [skip] counts the characters of a matched
    occurrence still to pass over. *)
Fixpoint replace_from (old new : string) (skip : nat) (s : string) : string :=
  match s with
  | EmptyString => EmptyString
  | String c rest =>
      match skip with
      | S k => replace_from old new k rest
      | O =>
          if prefix old s
          then new ++ replace_from old new (String.length old - 1) rest
          else String c (replace_from old new 0 rest)
      end
  end.

Fixpoint interleave (new s : string) : string :=
  match s with
  | EmptyString => EmptyString
  | String c rest => String c (new ++ interleave new rest)
  end.

Definition replace (old new s : string) : string :=
  match old with
  | EmptyString => new ++ interleave new s
  | String _ _ => replace_from old new 0 s
  end.

(** [sep.join(parts)]. *)
Definition join (sep : string) (parts : list string) : string :=
  String.concat sep parts.

(** [needle in s]. *)
Fixpoint contains (needle s : string) : bool :=
  prefix needle s ||
  match s with
  | EmptyString => false
  | String _ rest => contains needle rest
  end.

Fixpoint drop (n : nat) (s : string) : string :=
  match n, s with
  | O, _ => s
  | S k, EmptyString => EmptyString
  | S k, String _ rest => drop k rest
  end.

(** [s.split(sep, 1)] for a non-empty [sep]: one part when [sep] does not
    occur, else the text before and the text after its first occurrence. *)
Fixpoint split_once (sep s : string) : list string :=
  match s with
  | EmptyString => [EmptyString]
  | String c rest =>
      if prefix sep s then [EmptyString; drop (String.length sep) s]
      else
        match split_once sep rest with
        | [] => []
        | hd :: tl => String c hd :: tl
        end
  end.

(** [str.isspace] on one character, for code points below 256:
    U+0009..U+000D, U+001C..U+0020, U+0085 and U+00A0. *)
Definition is_space (c : ascii) : bool :=
  let n := nat_of_ascii c in
  ((9 <=? n) && (n <=? 13) || (28 <=? n) && (n <=? 32)
   || (n =? 133) || (n =? 160))%nat.

Fixpoint lstrip_by (p : ascii -> bool) (s : string) : string :=
  match s with
  | EmptyString => EmptyString
  | String c rest => if p c then lstrip_by p rest else s
  end.

Fixpoint rstrip_by (p : ascii -> bool) (s : string) : string :=
  match s with
  | EmptyString => EmptyString
  | String c rest =>
      match rstrip_by p rest with
      | EmptyString => if p c then EmptyString else String c EmptyString
      | r => String c r
      end
  end.

(** [s.strip()]. *)
Definition strip (s : string) : string := rstrip_by is_space (lstrip_by is_space s).

Fixpoint all_chars (p : ascii -> bool) (s : string) : bool :=
  match s with
  | EmptyString => true
  | String c rest => p c && all_chars p rest
  end.

Definition first_char (s : string) : option ascii :=
  match s with
  | EmptyString => None
  | String c _ => Some c
  end.

Fixpoint last_char (s : string) : option ascii :=
  match s with
  | EmptyString => None
  | String c EmptyString => Some c
  | String _ rest => last_char rest
  end.

(** No white space at either end. *)
Definition trimmed (s : string) : Prop :=
  (forall c, first_char s = Some c -> is_space c = false) /\
  (forall c, last_char s = Some c -> is_space c = false).

(** [s.rstrip(chars)] for a one-character [chars]. *)
Definition rstrip_char (c : ascii) (s : string) : string :=
  rstrip_by (Ascii.eqb c) s.

(** [str(i)] for an [int]. *)
Definition str_of_int (z : Z) : string := NilZero.string_of_int (Z.to_int z).

(** [bs.hex()]: two lower-case hexadecimal digits per byte. *)
Definition hex_digit (n : N) : ascii :=
  match n with
  | 0%N => "0" | 1%N => "1" | 2%N => "2" | 3%N => "3" | 4%N => "4"
  | 5%N => "5" | 6%N => "6" | 7%N => "7" | 8%N => "8" | 9%N => "9"
  | 10%N => "a" | 11%N => "b" | 12%N => "c" | 13%N => "d" | 14%N => "e"
  | _ => "f"
  end%char.

Fixpoint bytes_hex (bs : list byte) : string :=
  match bs with
  | [] => EmptyString
  | b :: rest =>
      String (hex_digit (N.div (Byte.to_N b) 16))
             (String (hex_digit (N.modulo (Byte.to_N b) 16)) (bytes_hex rest))
  end.

(** [s.upper()] on ASCII text, which is what [hex()] yields. *)
Definition upper_char (c : ascii) : ascii :=
  let n := nat_of_ascii c in
  if ((97 <=? n) && (n <=? 122))%nat then ascii_of_nat (n - 32) else c.

Fixpoint upper (s : string) : string :=
  match s with
  | EmptyString => EmptyString
  | String c rest => String (upper_char c) (upper rest)
  end.

(** [bool(s)] for a [str]: the empty string is false. *)
Definition truthy (s : string) : bool :=
  match s with
  | EmptyString => false
  | String _ _ => true
  end.

End PyStr.

Import PyStr.

(** ** Python dictionaries: insertion order, unique keys *)

Definition dict (K V : Type) : Type := list (K * V).

Section Dict.
Context {K V : Type} (keq : K -> K -> bool).

(** [d[k] = v]: an existing key keeps its place, a new key goes last. *)
Fixpoint dict_set (d : dict K V) (k : K) (v : V) : dict K V :=
  match d with
  | [] => [(k, v)]
  | (k', v') :: d' =>
      if keq k' k then (k', v) :: d' else (k', v') :: dict_set d' k v
  end.

(** [d.get(k)]. *)
Fixpoint dict_get (d : dict K V) (k : K) : option V :=
  match d with
  | [] => None
  | (k', v') :: d' => if keq k' k then Some v' else dict_get d' k
  end.

(** [{**d, **e}] for an [e] met in its insertion order. *)
Definition dict_update (d e : dict K V) : dict K V :=
  fold_left (fun acc kv => dict_set acc (fst kv) (snd kv)) e d.

End Dict.

(** ** The runtime the script runs on *)

(** What the embedding takes from the interpreter and the host: the host name
    read once at import, [repr] of a float (the f-string form of a float
    field) and [round(x, ndigits)]. *)
Class PyRuntime : Type := {
  HOSTNAME : string;
  float_repr : float -> string;
  round_ndigits : float -> Z -> float
}.

Definition KEY_EC88 : Z := 0xEC88.

(** ** Influx line protocol *)

Section LineProtocol.
Context `{PyRuntime}.
Local Open Scope string_scope.

(** [lp_escape(s)]. *)
Definition lp_escape (s : string) : string :=
  let bs := String backslash EmptyString in
  replace "=" "\=" (replace "," "\," (replace " " "\ " (replace bs (bs ++ bs) s))).

(** A field value, by the [isinstance] tests of the encoder. *)
Inductive value : Type :=
| VNone
| VBool (b : bool)
| VInt (i : Z)
| VFloat (f : float)
| VStr (s : string).

(** One turn of the loop over [fields.items()]. *)
Definition field_step (fparts : list string) (kv : string * value) : list string :=
  let '(k, v) := kv in
  match v with
  | VNone => fparts
  | VBool b => fparts ++ [k ++ "=" ++ (if b then "true" else "false")]
  | VInt i => fparts ++ [k ++ "=" ++ str_of_int i ++ "i"]
  | VFloat f =>
      if PrimFloat.is_finite f then fparts ++ [k ++ "=" ++ float_repr f]
      else fparts
  | VStr s =>
      fparts ++ [k ++ "=" ++ String dquote
                   (replace (String dquote EmptyString)
                            (String backslash (String dquote EmptyString)) s
                    ++ String dquote EmptyString)]
  end.

(** The generator over [tags.items()]: a tag whose value is [None] is left
    out.  The tag values of the script are strings, for which [str(v)] is
    [v]. *)
Definition tag_parts (tags : dict string (option string)) : list string :=
  flat_map (fun kv : string * option string =>
              match snd kv with
              | Some v => [lp_escape (fst kv) ++ "=" ++ lp_escape v]
              | None => []
              end) tags.

(** [to_line_protocol(measurement, tags, fields, ts_ns)]. *)
Definition to_line_protocol (measurement : string)
           (tags : dict string (option string))
           (fields : dict string value) (ts_ns : Z) : string :=
  let tpart := join "," (tag_parts tags) in
  let fparts := fold_left field_step fields [] in
  match fparts with
  | [] => EmptyString
  | _ :: _ =>
      let tagsect := if truthy tpart then "," ++ tpart else EmptyString in
      lp_escape measurement ++ tagsect ++ " " ++ join "," fparts
        ++ " " ++ str_of_int ts_ns
  end.

End LineProtocol.

(** *** The escaping, character by character *)

Definition is_special (c : ascii) : bool :=
  Ascii.eqb c backslash || Ascii.eqb c " " || Ascii.eqb c "," || Ascii.eqb c "=".

(** A special character behind one backslash, any other character as it is. *)
Definition escape_char (c : ascii) : string :=
  if is_special c then String backslash (String c EmptyString)
  else String c EmptyString.

(** A string rewritten character by character. *)
Fixpoint bind_chars (f : ascii -> string) (s : string) : string :=
  match s with
  | EmptyString => EmptyString
  | String c rest => f c ++ bind_chars f rest
  end.

Definition escape_chars (s : string) : string := bind_chars escape_char s.

(** The characters of [p] behind a backslash, the others as they are. *)
Definition escape_by (p : ascii -> bool) (c : ascii) : string :=
  if p c then String backslash (String c EmptyString) else String c EmptyString.

(** [replace] for a pattern of two characters [a], [b], told directly. *)
Fixpoint replace2 (a b : ascii) (new s : string) : string :=
  match s with
  | EmptyString => EmptyString
  | String c rest =>
      match rest with
      | EmptyString => String c EmptyString
      | String d rest' =>
          if Ascii.eqb a c && Ascii.eqb b d then new ++ replace2 a b new rest'
          else String c (replace2 a b new rest)
      end
  end.

Definition starts_with (x : ascii) (s : string) : bool :=
  match s with
  | EmptyString => false
  | String c _ => Ascii.eqb c x
  end.

(** The escaping undone: the four substitutions reversed, last one first. *)
Definition lp_unescape (s : string) : string :=
  let bs := String backslash EmptyString in
  replace (bs ++ bs) bs
    (replace "\ " " " (replace "\," "," (replace "\=" "=" s))).

(** *** The parts of a line *)

Section LineParts.
Context `{PyRuntime}.
Local Open Scope string_scope.

(** The tags that have a value, in the order of the dictionary. *)
Definition present_tags (tags : dict string (option string))
  : list (string * string) :=
  flat_map (fun kv : string * option string =>
              match snd kv with
              | Some v => [(fst kv, v)]
              | None => []
              end) tags.

(** The text of a field value, [None] for a value that is left out. *)
Definition field_text (v : value) : option string :=
  match v with
  | VNone => None
  | VBool b => Some (if b then "true" else "false")
  | VInt i => Some (str_of_int i ++ "i")
  | VFloat f => if PrimFloat.is_finite f then Some (float_repr f) else None
  | VStr s =>
      Some (String dquote
              (replace (String dquote EmptyString)
                       (String backslash (String dquote EmptyString)) s
               ++ String dquote EmptyString))
  end.

(** The fields that are written, each with the text of its value. *)
Definition emitted_fields (fields : dict string value) : list (string * string) :=
  flat_map (fun kv : string * value =>
              match field_text (snd kv) with
              | Some t => [(fst kv, t)]
              | None => []
              end) fields.

(** [key=text]. *)
Definition pair_text (kv : string * string) : string :=
  fst kv ++ "=" ++ snd kv.

(** A line put together from a measurement, tag pairs and field pairs that
    are taken as they are: a comma before each tag, a comma between fields. *)
Definition assemble (measurement : string) (tags fields : list (string * string))
           (ts_ns : Z) : string :=
  measurement
    ++ String.concat EmptyString (map (fun kv => "," ++ pair_text kv) tags)
    ++ " " ++ join "," (map pair_text fields)
    ++ " " ++ str_of_int ts_ns.


End LineParts.

(** ** The tag composer *)

Section Composer.
Context `{PyRuntime}.
Local Open Scope string_scope.

(** [a or b] for two strings. *)
Definition str_or (a b : string) : string := if truthy a then a else b.

(** One turn of the loop over [extras]. *)
Definition extra_step (extra_tags : dict string string) (kv : string)
  : result (dict string string) :=
  if contains "=" kv then
    match split_once "=" kv with
    | [k; v] => Ok (dict_set String.eqb extra_tags (strip k) (strip v))
    | _ => Raise ValueError
    end
  else Ok extra_tags.

(** The key that an entry with an equals sign sets. *)
Definition extra_key (kv : string) : string :=
  strip (hd EmptyString (split_once "=" kv)).

Definition parse_extras (extras : list string) : result (dict string string) :=
  fold_left (fun acc kv => d <- acc ;; extra_step d kv) extras (Ok []).

(** The loop over [extras], from a dictionary [d]. *)
Definition extras_from (d : dict string string) (extras : list string)
  : result (dict string string) :=
  fold_left (fun acc kv => d <- acc ;; extra_step d kv) extras (Ok d).

(** [build_tags(name, mac, extras)]. *)
Definition build_tags (name mac : string) (extras : list string)
  : result (dict string (option string)) :=
  extra_tags <- parse_extras extras ;;
  let model := if contains "5075" (str_or name EmptyString)
               then Some "H5075" else None in
  Ok (dict_update String.eqb
        [("sensor", Some (str_or name mac));
         ("mac", Some mac);
         ("host", Some HOSTNAME);
         ("model", model)]
        (map (fun kv => (fst kv, Some (snd kv))) extra_tags)).

End Composer.

(** ** Delivery with retries *)

Section Delivery.

(** A Python number as [min] can return it here: the [int] 30 or a [float]. *)
Inductive pynum : Type :=
| PInt (i : Z)
| PFloat (f : float).

(** What [requests.post] is called with. *)
Record request : Type := {
  req_url : string;
  req_params : list (string * string);
  req_headers : list (string * string);
  req_data : string;
  req_timeout : float
}.

(** What one call of [requests.post] comes to: a response with its status
    code, or an exception (connection error, timeout). *)
Inductive post_outcome : Type :=
| Response (status_code : Z)
| Failed (e : exn).

(** What [write_v2] does that can be seen from outside, in order. *)
Inductive delivery_event : Type :=
| Post (attempt : nat) (r : request)
| Sleep (seconds : pynum)
| LogFailure (max_retries : Z).

(** [Response.raise_for_status()] of the requests library: [HTTPError] for a
    status from 400 to 599, nothing otherwise. *)
Definition raise_for_status (status_code : Z) : result unit :=
  if (400 <=? status_code) && (status_code <? 600) then Raise HTTPError
  else Ok tt.

(** [min(30, x)] for a [float] x: [x] when [x < 30], else the first
    argument. *)
Definition min_30 (x : float) : pynum :=
  if PrimFloat.ltb x 30 then PFloat x else PInt 30.

(** [min(30, (2**attempt) + random.random())], [jitter] being the value that
    [random.random()] returns. *)
Definition backoff (attempt : nat) (jitter : float) : result pynum :=
  x <- int_add_float (2 ^ Z.of_nat attempt) jitter ;;
  Ok (min_30 x).

Definition make_request (payload url bucket org token : string)
           (timeout : float) : request :=
  {| req_url := (rstrip_char "/" url ++ "/api/v2/write")%string;
     req_params := [("org", org); ("bucket", bucket); ("precision", "ns")]%string;
     req_headers := [("Authorization", "Token " ++ token)]%string;
     req_data := payload;
     req_timeout := timeout |}.

(** The body of [try] for one attempt: [Ok] is one of the two [return]s,
    [Raise] goes to the handler. *)
Definition attempt_body (o : post_outcome) : result unit :=
  match o with
  | Failed e => Raise e
  | Response status_code =>
      if status_code =? 204 then Ok tt
      else (_ <- raise_for_status status_code ;; Ok tt)
  end.

(** The loop [for attempt in range(max_retries)] from [attempt] on, with
    [remaining] turns left.  [endpoint] tells what the post of each attempt
    comes to, [jitter] what [random.random()] returns after it. *)
Fixpoint write_v2_loop (endpoint : nat -> post_outcome) (jitter : nat -> float)
         (r : request) (max_retries : Z) (remaining attempt : nat)
  : list delivery_event * result unit :=
  match remaining with
  | O => ([], Ok tt)
  | S remaining' =>
      match attempt_body (endpoint attempt) with
      | Ok _ => ([Post attempt r], Ok tt)
      | Raise _ =>
          if Z.of_nat attempt =? max_retries - 1
          then ([Post attempt r; LogFailure max_retries], Ok tt)
          else
            match backoff attempt (jitter attempt) with
            | Raise e => ([Post attempt r], Raise e)
            | Ok d =>
                let '(evs, out) :=
                  write_v2_loop endpoint jitter r max_retries
                                remaining' (S attempt) in
                (Post attempt r :: Sleep d :: evs, out)
            end
      end
  end.

(** [write_v2(lp_lines, url, bucket, org, token, timeout, max_retries)]. *)
Definition write_v2 (endpoint : nat -> post_outcome) (jitter : nat -> float)
           (lp_lines : list string) (url bucket org token : string)
           (timeout : float) (max_retries : Z)
  : list delivery_event * result unit :=
  let payload := join (String "010"%char EmptyString) lp_lines in
  write_v2_loop endpoint jitter
                (make_request payload url bucket org token timeout)
                max_retries (Z.to_nat max_retries) 0.

(** An outcome of the post that sends the attempt to the handler. *)
Definition retryable (o : post_outcome) : bool :=
  match attempt_body o with
  | Raise _ => true
  | Ok _ => false
  end.

(** Failed attempts from [attempt] on, each followed by its sleep. *)
Fixpoint retries (r : request) (attempt : nat) (ds : list pynum)
  : list delivery_event :=
  match ds with
  | [] => []
  | d :: ds' => Post attempt r :: Sleep d :: retries r (S attempt) ds'
  end.

(** The number of posts in a run. *)
Definition attempts (evs : list delivery_event) : nat :=
  List.length (filter (fun e => match e with Post _ _ => true | _ => false end) evs).

Definition logged_failure (evs : list delivery_event) : bool :=
  existsb (fun e => match e with LogFailure _ => true | _ => false end) evs.

Definition sleeps (evs : list delivery_event) : list pynum :=
  flat_map (fun e => match e with Sleep d => [d] | _ => [] end) evs.

End Delivery.

(** ** One scan window *)

Section Scan.
Context `{PyRuntime}.
Local Open Scope string_scope.

(** The device of a detection: [dev.address] and [getattr(dev, "name", "")],
    [None] when the attribute is missing or is [None]. *)
Record device : Type := {
  address : string;
  dev_name : option string
}.

(** The advertisement data of a detection; [manufacturer_data] maps a
    company identifier to the bytes it sent. *)
Record advertisement : Type := {
  local_name : option string;
  rssi : option Z;
  manufacturer_data : option (dict Z (list byte))
}.

(** One call of the detection callback, with what [time.time_ns()] returns
    during it. *)
Record detection : Type := {
  det_dev : device;
  det_adv : advertisement;
  det_time_ns : Z
}.

(** The arguments of [scan_once]. *)
Record scan_args : Type := {
  seconds : Z;
  measurement : string;
  extra_tags : list string;
  print_raw : bool
}.

(** [a or b] for an optional string [a]. *)
Definition opt_or (a : option string) (b : string) : string :=
  match a with
  | Some s => str_or s b
  | None => b
  end.

(** The callback [cb(dev, adv)] on the list [lines] it closes over. *)
Definition cb (args : scan_args) (d : detection) (lines : list string)
  : result (list string) :=
  let name := opt_or (local_name (det_adv d))
                     (opt_or (dev_name (det_dev d)) EmptyString) in
  let man := match manufacturer_data (det_adv d) with
             | Some m => m
             | None => []
             end in
  match dict_get Z.eqb man KEY_EC88 with
  | None => Ok lines
  | Some payload =>
      decoded <- decode_packed_24 payload ;;
      match decoded with
      | None => Ok lines
      | Some (t_c, rh, batt) =>
          tags <- build_tags name (address (det_dev d)) (extra_tags args) ;;
          let fields :=
            [("temp_c", VFloat (round_ndigits t_c 3));
             ("humidity_pct", VFloat (round_ndigits rh 3));
             ("battery_pct", match batt with Some b => VInt b | None => VNone end);
             ("rssi_dbm", match rssi (det_adv d) with
                          | Some r => VInt r
                          | None => VNone
                          end)] in
          let fields :=
            if print_raw args
            then dict_set String.eqb fields "payload_hex"
                          (VStr (upper (bytes_hex payload)))
            else fields in
          let ts_ns := det_time_ns d in
          let lp := to_line_protocol (measurement args) tags fields ts_ns in
          if truthy lp then Ok (lines ++ [lp])%list else Ok lines
      end
  end.

(** The calls that [scan_once] makes: the constructor of the scanner, and
    the three calls it awaits. *)
Inductive listener_call : Type :=
| ScannerNew (timeout : Z)
| ScannerStart
| WindowSleep (seconds : Z)
| ScannerStop.

(** What happens during one call: the detections delivered to the callback,
    then the call returns ([None]) or raises. *)
Definition world : Type := listener_call -> list detection * option exn.

Record scan_state : Type := {
  calls : list listener_call;
  lines : list string
}.

(** A coroutine body: it changes the state and returns or raises. *)
Definition io (A : Type) : Type := scan_state -> scan_state * result A.

Definition io_ret {A : Type} (a : A) : io A := fun s => (s, Ok a).

Definition io_bind {A B : Type} (m : io A) (k : A -> io B) : io B :=
  fun s =>
    match m s with
    | (s', Ok a) => k a s'
    | (s', Raise e) => (s', Raise e)
    end.

(** [try: body finally: fin]: [fin] runs however [body] ends; an exception of
    [fin] replaces the outcome of [body]. *)
Definition try_finally {A : Type} (body : io A) (fin : io unit) : io A :=
  fun s =>
    let '(s1, r) := body s in
    match fin s1 with
    | (s2, Ok _) => (s2, r)
    | (s2, Raise e) => (s2, Raise e)
    end.

(** The callback run by the listener: an exception of the callback stays with
    the listener and leaves [lines] as it was. *)
Definition deliver (args : scan_args) (ls : list string) (d : detection)
  : list string :=
  match cb args d ls with
  | Ok ls' => ls'
  | Raise _ => ls
  end.

(** One call [c], awaited or not. *)
Definition perform (w : world) (args : scan_args) (c : listener_call) : io unit :=
  fun s =>
    let '(dets, out) := w c in
    ({| calls := (calls s ++ [c])%list;
        lines := fold_left (deliver args) dets (lines s) |},
     match out with
     | None => Ok tt
     | Some e => Raise e
     end).

(** [await c]. *)
Definition await (w : world) (args : scan_args) (c : listener_call) : io unit :=
  perform w args c.

Definition get_lines : io (list string) := fun s => (s, Ok (lines s)).

(** [scan_once(seconds, measurement, extra_tags, print_raw)]. *)
Definition scan_once (w : world) (args : scan_args) : io (list string) :=
  io_bind (perform w args (ScannerNew (seconds args))) (fun _ =>
  io_bind (await w args ScannerStart) (fun _ =>
  io_bind (try_finally (await w args (WindowSleep (seconds args)))
                       (await w args ScannerStop)) (fun _ =>
  get_lines))).

Definition scan_start : scan_state := {| calls := []; lines := [] |}.

(** A line of a batch: the encoding of a point with a field that is
    written. *)
Definition carries_a_field (args : scan_args) (l : string) : Prop :=
  l <> EmptyString /\
  exists tags fields ts,
    l = to_line_protocol (measurement args) tags fields ts /\
    emitted_fields fields <> [].



End Scan.

(** A runtime for the examples; none of them prints a float. *)
Definition example_runtime : PyRuntime :=
  {| HOSTNAME := "annie-pi";
     float_repr := fun _ => "0.0"%string;
     round_ndigits := fun f _ => f |}.

(** Endpoints and a jitter for the examples. *)
Definition always (o : post_outcome) : nat -> post_outcome := fun _ => o.


Definition half_jitter : nat -> float := fun _ => 0.5%float.


(** ** The decoder of the debug script, [govee_h5075_debug.py] *)

(** [decode_packed_24(payload)] of the debug script: the 24 bits are taken
    as an unsigned value, with no sign bit. *)
Definition debug_decode_packed_24 (payload : list byte)
  : result (option reading) :=
  if (List.length payload <? 5)%nat then Ok None
  else
    let V := int_from_bytes_big (slice 1 4 payload) in
    temp_c <- int_truediv_float V 10000%float ;;
    rh <- int_truediv_float (V mod 1000) 10%float ;;
    b4 <- index payload 4 ;;
    batt <- (if byte_val b4 <=? 100
             then b4' <- index payload 4 ;; Ok (Some (byte_val b4'))
             else Ok None) ;;
    Ok (Some (temp_c, rh, batt)).

(** The humidity readings of the two decoders on a payload whose sign bit is
    set differ: [n] and [n + 608] modulo 1000 give different quotients. *)
Definition humidity_differs (n : nat) : bool :=
  match float_of_int (Z.of_nat n),
        float_of_int ((Z.of_nat n + 608) mod 1000) with
  | Ok h, Ok h' => negb (PrimFloat.eqb (h / 10) (h' / 10))
  | _, _ => false
  end.

(** ** More about the escaping *)

(** The number of characters of [s] that the escaping treats. *)
Fixpoint count_special (s : string) : nat :=
  match s with
  | EmptyString => O
  | String c rest => ((if is_special c then 1 else 0) + count_special rest)%nat
  end.

(** ** More about the tag composer *)

Section ComposerMore.
Context `{PyRuntime}.
Local Open Scope string_scope.

(** The value that an entry with an equals sign sets. *)
Definition extra_value (kv : string) : string :=
  strip (nth 1 (split_once "=" kv) EmptyString).

(** The value of the last entry of [extras] that sets [key]. *)
Fixpoint last_extra (key : string) (extras : list string) : option string :=
  match extras with
  | [] => None
  | kv :: rest =>
      match last_extra key rest with
      | Some v => Some v
      | None =>
          if contains "=" kv && String.eqb (extra_key kv) key
          then Some (extra_value kv) else None
      end
  end.

(** The four tags that [build_tags] writes before the extra ones. *)
Definition builtin_tags (name mac : string) : dict string (option string) :=
  [("sensor", Some (str_or name mac));
   ("mac", Some mac);
   ("host", Some HOSTNAME);
   ("model", if contains "5075" (str_or name EmptyString)
             then Some "H5075" else None)].

End ComposerMore.

(** ** More about the scan window *)

Section ScanMore.
Context `{PyRuntime}.


(** What one call of the callback adds to an empty list. *)
Definition cb_lines (args : scan_args) (d : detection) : list string :=
  match cb args d [] with
  | Ok new => new
  | Raise _ => []
  end.


End ScanMore.

(** ** More about the delivery *)

(** The posts of a run, in order. *)
Definition posts_of (evs : list delivery_event) : list delivery_event :=
  filter (fun e => match e with Post _ _ => true | _ => false end) evs.

(** A pause of at most 30 seconds. *)
Definition within_30 (d : pynum) : bool :=
  match d with
  | PInt i => i <=? 30
  | PFloat x => PrimFloat.ltb x 30
  end.

(** A detection of a sensor with the docstring's payload, and one of another
    device. *)
Definition example_detection : detection :=
  {| det_dev := {| address := "A4:C1:38:00:00:01"; dev_name := None |};
     det_adv := {| local_name := Some "GVH5075_0001"%string;
                   rssi := Some (-60);
                   manufacturer_data := Some [(KEY_EC88, example_payload)] |};
     det_time_ns := 1700000000000000000 |}.


Definition example_args : scan_args :=
  {| seconds := 8; measurement := "govee_h5075";
     extra_tags := []; print_raw := false |}.

(** ** The scheduler, [main] *)

Section Scheduler.
Context `{PyRuntime}.

(** The parsed command line. *)
Record main_args : Type := {
  arg_seconds : Z;
  arg_loop : bool;
  arg_interval : Z;
  arg_measurement : string;
  arg_tag : list string;
  arg_print_raw : bool;
  arg_url : string;
  arg_bucket : string;
  arg_org : string;
  arg_token : option string
}.

(** What [BleakScanner.discover] comes to: a list of devices, empty or not,
    a [BleakError], or another exception. *)
Inductive discover_outcome : Type :=
| Discovered (any_device : bool)
| DiscoverBleakError
| DiscoverRaised (e : exn).

(** What is outside [main]: the environment variable [INFLUX_TOKEN] ([None]
    when it is not set), the pre-scan, and for each cycle of the loop the
    listener, the endpoint, the random generator and the sleep between
    cycles. *)
Record main_world : Type := {
  env_influx_token : option string;
  prelim : discover_outcome;
  scan_world : nat -> world;
  post_world : nat -> nat -> post_outcome;
  jitter_world : nat -> nat -> float;
  interval_sleep : nat -> option exn
}.

(** What [main] does that can be seen from outside, in order. *)
Inductive main_event : Type :=
| StderrMissingToken
| Prescan
| WarnNoAdverts
| StderrBluetoothError
| Scanned (cycle : nat) (cs : list listener_call)
| Delivered (cycle : nat) (evs : list delivery_event)
| Slept (cycle : nat) (seconds : Z).

(** How a run of [main] stands: it returned, it left through [sys.exit], it
    raised, or it is still in the loop after the cycles looked at. *)
Inductive main_outcome : Type :=
| MainReturned
| MainExit (status : Z)
| MainRaised (e : exn)
| MainRunning.

Definition scan_args_of (a : main_args) : scan_args :=
  {| seconds := arg_seconds a;
     measurement := arg_measurement a;
     extra_tags := arg_tag a;
     print_raw := arg_print_raw a |}.

(** [args.token or os.getenv("INFLUX_TOKEN", "")]. *)
Definition token_of (a : main_args) (mw : main_world) : string :=
  opt_or (arg_token a)
         match env_influx_token mw with
         | Some s => s
         | None => EmptyString
         end.

(** One scan window and the delivery of its batch:
    [lines = await scan_once(...)] and [if lines: write_v2(...)] with the
    default time-out of 5.0 and the default ceiling of 5. *)
Definition cycle (a : main_args) (mw : main_world) (token : string) (i : nat)
  : list main_event * result unit :=
  let '(s, out) := scan_once (scan_world mw i) (scan_args_of a) scan_start in
  match out with
  | Raise e => ([Scanned i (calls s)], Raise e)
  | Ok [] => ([Scanned i (calls s)], Ok tt)
  | Ok (l :: ls) =>
      let '(evs, o) :=
        write_v2 (post_world mw i) (jitter_world mw i) (l :: ls)
                 (arg_url a) (arg_bucket a) (arg_org a) token 5 5 in
      ([Scanned i (calls s); Delivered i evs], o)
  end.

(** [while True: ...] from cycle [i] on, looked at for [fuel] cycles. *)
Fixpoint main_loop (a : main_args) (mw : main_world) (token : string)
         (fuel i : nat) : list main_event * main_outcome :=
  match fuel with
  | O => ([], MainRunning)
  | S fuel' =>
      match cycle a mw token i with
      | (evs, Raise e) => (evs, MainRaised e)
      | (evs, Ok _) =>
          match interval_sleep mw i with
          | Some e => (evs ++ [Slept i (arg_interval a)], MainRaised e)
          | None =>
              let '(evs', o) := main_loop a mw token fuel' (S i) in
              (evs ++ Slept i (arg_interval a) :: evs', o)
          end
      end
  end.

(** [main()] after [parse_args], the loop being looked at for [fuel]
    cycles. *)
Definition main (a : main_args) (mw : main_world) (fuel : nat)
  : list main_event * main_outcome :=
  let token := token_of a mw in
  if negb (truthy token) then ([StderrMissingToken], MainExit 2)
  else
    let after_prescan (evs : list main_event) :=
      if arg_loop a then
        let '(evs', o) := main_loop a mw token fuel 0 in
        (evs ++ evs', o)
      else
        match cycle a mw token 0 with
        | (evs', Raise e) => (evs ++ evs', MainRaised e)
        | (evs', Ok _) => (evs ++ evs', MainReturned)
        end in
    match prelim mw with
    | Discovered true => after_prescan [Prescan]
    | Discovered false => after_prescan [Prescan; WarnNoAdverts]
    | DiscoverBleakError => after_prescan [Prescan; StderrBluetoothError]
    | DiscoverRaised e => ([Prescan], MainRaised e)
    end.

(** The number of scan windows and of posts in a run. *)
Definition scans (evs : list main_event) : nat :=
  List.length (filter (fun e => match e with Scanned _ _ => true | _ => false end)
                      evs).

Definition all_posts (evs : list main_event) : nat :=
  list_sum (map (fun e => match e with
                          | Delivered _ d => attempts d
                          | _ => O
                          end) evs).

End Scheduler.

(** A command line and a world for the examples: the defaults of the
    script, no token on the command line, a quiet radio and a dead
    endpoint. *)
Definition default_args : main_args :=
  {| arg_seconds := 8; arg_loop := false; arg_interval := 10;
     arg_measurement := "govee_h5075"; arg_tag := []; arg_print_raw := false;
     arg_url := "http://127.0.0.1:8086"; arg_bucket := "sensors";
     arg_org := "annie"; arg_token := None |}.

Definition loop_args : main_args :=
  {| arg_seconds := 8; arg_loop := true; arg_interval := 10;
     arg_measurement := "govee_h5075"; arg_tag := []; arg_print_raw := false;
     arg_url := "http://127.0.0.1:8086"; arg_bucket := "sensors";
     arg_org := "annie"; arg_token := Some "secret"%string |}.


(** A world in which the sensor is heard once in the window of every
    cycle. *)
Definition sensor_world (token : option string) : main_world :=
  {| env_influx_token := token;
     prelim := Discovered true;
     scan_world := fun _ c => match c with
                              | WindowSleep _ => ([example_detection], None)
                              | _ => ([], None)
                              end;
     post_world := fun _ _ => Response 204;
     jitter_world := fun _ _ => 0.5%float;
     interval_sleep := fun _ => None |}.

(** ** The DS18B20 reader, [ds18b20_influx.py] *)

Section Ds18b20.
Local Open Scope string_scope.

(** [parse_tags(tag_list)]. *)
Definition parse_tags (tag_list : list string) : result (dict string string) :=
  fold_left
    (fun acc t =>
       out <- acc ;;
       if contains "=" t then
         match split_once "=" t with
         | [k; v] => Ok (dict_set String.eqb out (strip k) (strip v))
         | _ => Raise ValueError
         end
       else Ok out)
    tag_list (Ok []).

(** The line boundaries of [str.splitlines], for code points below 256:
    LF, VT, FF, CR, FS, GS, RS and NEL. *)
Definition is_linebreak (c : ascii) : bool :=
  let n := nat_of_ascii c in
  ((10 <=? n) && (n <=? 13) || (28 <=? n) && (n <=? 30) || (n =? 133))%nat.

(** [s.splitlines()]; [skip_lf] tells that a CR was just passed, so that a
    LF that follows belongs to the same line boundary. *)
Fixpoint lines_from (skip_lf : bool) (s : string) : list string :=
  match s with
  | EmptyString => []
  | String c rest =>
      if skip_lf && Ascii.eqb c "010" then lines_from false rest
      else if is_linebreak c
           then EmptyString :: lines_from (Ascii.eqb c "013") rest
           else match lines_from false rest with
                | [] => [String c EmptyString]
                | l :: ls => String c l :: ls
                end
  end.

Definition splitlines (s : string) : list string := lines_from false s.

(** [s.rfind(sub)]: the highest index at which [sub] starts, [None] for -1. *)
Fixpoint rfind (sub s : string) : option nat :=
  match s with
  | EmptyString => if prefix sub EmptyString then Some O else None
  | String _ rest =>
      match rfind sub rest with
      | Some i => Some (S i)
      | None => if prefix sub s then Some O else None
      end
  end.

(** The white space that [int(s)] passes over at both ends, for code points
    below 256: TAB, LF, VT, FF, CR, space, NEL and the no-break space. *)
Definition is_int_space (c : ascii) : bool :=
  let n := nat_of_ascii c in
  ((9 <=? n) && (n <=? 13) || (n =? 32) || (n =? 133) || (n =? 160))%nat.

Definition is_digit (c : ascii) : bool :=
  let n := nat_of_ascii c in ((48 <=? n) && (n <=? 57))%nat.

(** The digits of a literal without its underscores: a digit first and
    last, and no two underscores in a row. *)
Fixpoint digit_run (prev_digit : bool) (s : string) : option string :=
  match s with
  | EmptyString => if prev_digit then Some EmptyString else None
  | String c rest =>
      if is_digit c then option_map (String c) (digit_run true rest)
      else if Ascii.eqb c "_" && prev_digit then digit_run false rest
      else None
  end.

(** The default of [sys.get_int_max_str_digits()]. *)
Definition INT_MAX_STR_DIGITS : nat := 4300.

(** [int(s)] for a [str]: white space at both ends, a sign, decimal digits
    with single underscores between them; [ValueError] otherwise, and for
    more digits than the limit. *)
Definition py_int (s : string) : result Z :=
  let s := rstrip_by is_int_space (lstrip_by is_int_space s) in
  let '(negative, body) :=
    match s with
    | String c rest =>
        if Ascii.eqb c "+" then (false, rest)
        else if Ascii.eqb c "-" then (true, rest)
        else (false, s)
    | EmptyString => (false, s)
    end in
  match digit_run false body with
  | None => Raise ValueError
  | Some digits =>
      if (INT_MAX_STR_DIGITS <? String.length digits)%nat then Raise ValueError
      else
        match NilEmpty.uint_of_string digits with
        | Some u => Ok (if negative then - Z.of_uint u else Z.of_uint u)
        | None => Raise ValueError
        end
  end.

(** [read_temp(sensor_path)], as a function of what opening and reading the
    file [w1_slave] comes to: its text, or an exception.  Every exception is
    caught and gives [None]. *)
Definition read_temp (file : result string) : option float :=
  match
    (text <- file ;;
     let lines := splitlines (strip text) in
     match lines with
     | [] => Ok None
     | l0 :: _ =>
         if negb (contains "YES" l0) then Ok None
         else
           l1 <- index lines 1 ;;
           match rfind "t=" l1 with
           | None => Ok None
           | Some tpos =>
               mc <- py_int (drop (tpos + 2) l1) ;;
               t <- int_truediv_float mc 1000%float ;;
               Ok (Some t)
           end
     end)
  with
  | Ok r => r
  | Raise _ => None
  end.

(** The two lines that the kernel driver writes for 23.125 degrees. *)
Definition example_w1_slave : string :=
  "72 01 4b 46 7f ff 0e 10 57 : crc=57 YES"
  ++ String "010" ("72 01 4b 46 7f ff 0e 10 57 t=23125"
                   ++ String "010" EmptyString).

End Ds18b20.
(** * Properties *)

(** ** The decoder *)

Lemma byte_val_range (b : byte) : 0 <= byte_val b < 256.
Proof.
  unfold byte_val. pose proof (Byte.to_N_bounded b) as H. lia.
Qed.

Lemma float_of_int_small (z : Z) :
  0 <= z < 2 ^ 24 ->
  float_of_int z = Ok (SF2Prim (binary_normalize prec emax z 0 false)).
Proof.
  intros Hz. unfold float_of_int.
  assert (H : 2 ^ 24 <= DBL_OVERFLOW) by (vm_compute; discriminate).
  replace (Z.abs z <? DBL_OVERFLOW) with true; [reflexivity|].
  symmetry. apply Z.ltb_lt. rewrite Z.abs_eq by lia. lia.
Qed.

Lemma int_truediv_float_small (z : Z) (d : float) :
  0 <= z < 2 ^ 24 -> PrimFloat.eqb d 0%float = false ->
  exists f, float_of_int z = Ok f /\ int_truediv_float z d = Ok (f / d)%float.
Proof.
  intros Hz Hd. unfold int_truediv_float.
  rewrite (float_of_int_small z Hz). cbn [bind]. rewrite Hd.
  eexists. split; reflexivity.
Qed.

Lemma raw24_of_cons (b0 b1 b2 b3 : byte) (rest : list byte) :
  raw24_of (b0 :: b1 :: b2 :: b3 :: rest)
  = byte_val b1 * 65536 + byte_val b2 * 256 + byte_val b3.
Proof.
  unfold raw24_of, slice, int_from_bytes_big. cbn [Nat.sub skipn firstn fold_left].
  lia.
Qed.

Lemma land_mag_range (z : Z) : 0 <= Z.land z 0x7FFFFF < 2 ^ 23.
Proof.
  change 0x7FFFFF with (Z.ones 23). rewrite Z.land_ones by lia.
  apply Z.mod_pos_bound. lia.
Qed.

(** The decoder on a payload that is long enough, with every step that could
    raise resolved. *)
Lemma decode_long (b0 b1 b2 b3 b4 : byte) (rest : list byte) :
  let payload := b0 :: b1 :: b2 :: b3 :: b4 :: rest in
  let mag := Z.land (raw24_of payload) 0x7FFFFF in
  exists m h,
    float_of_int mag = Ok m /\
    float_of_int (mag mod 1000) = Ok h /\
    decode_packed_24 payload
    = Ok (Some (if negb (Z.land (raw24_of payload) 0x800000 =? 0)
                then (- (m / 10000))%float else (m / 10000)%float,
                (h / 10)%float,
                if byte_val b4 <=? 100 then Some (byte_val b4) else None)).
Proof.
  intros payload mag.
  pose proof (land_mag_range (raw24_of payload)) as Hmag. fold mag in Hmag.
  destruct (int_truediv_float_small mag 10000%float) as (m & Hm & Hdm);
    [lia | reflexivity |].
  destruct (int_truediv_float_small (mag mod 1000) 10%float) as (h & Hh & Hdh);
    [pose proof (Z.mod_pos_bound mag 1000); lia | reflexivity |].
  exists m, h. repeat split; try assumption.
  unfold decode_packed_24.
  change (List.length payload <? 5)%nat
    with (S (S (S (S (S (List.length rest))))) <? 5)%nat.
  replace (S (S (S (S (S (List.length rest))))) <? 5)%nat with false
    by (symmetry; apply Nat.ltb_ge; lia).
  fold (raw24_of payload). fold mag.
  rewrite Hdm, Hdh. cbn [bind index nth_error payload].
  destruct (byte_val b4 <=? 100); reflexivity.
Qed.

Lemma long_payload_shape (payload : list byte) :
  (5 <= List.length payload)%nat ->
  exists b0 b1 b2 b3 b4 rest, payload = b0 :: b1 :: b2 :: b3 :: b4 :: rest.
Proof.
  intros H.
  destruct payload as [|b0 [|b1 [|b2 [|b3 [|b4 rest]]]]]; cbn in H; try lia.
  now exists b0, b1, b2, b3, b4, rest.
Qed.

Lemma decode_never_raises (payload : list byte) :
  exists r, decode_packed_24 payload = Ok r.
Proof.
  destruct (Nat.lt_ge_cases (List.length payload) 5) as [Hlt|Hge].
  - exists None. unfold decode_packed_24.
    apply Nat.ltb_lt in Hlt. now rewrite Hlt.
  - destruct (long_payload_shape payload Hge)
      as (b0 & b1 & b2 & b3 & b4 & rest & ->).
    destruct (decode_long b0 b1 b2 b3 b4 rest) as (m & h & _ & _ & E).
    rewrite E. eauto.
Qed.

(** The docstring's example: T = 8.1809, RH = 80.9, battery 100, the two
    floats being the binary64 values nearest to 8.1809 and 80.9. *)
Example decode_example_payload :
  decode_packed_24 example_payload
  = Ok (Some (0x1.05c9eecbfb15bp+3%float, 0x1.439999999999ap+6%float, Some 100)).
Proof. vm_compute. reflexivity. Qed.

(** C5. The decoder is total: on a payload shorter than 5 bytes it returns
    [None] and raises nothing; on every payload of at least 5 bytes, whatever
    the bytes, it returns a reading and raises nothing.  So it returns [None]
    exactly on the short payloads. *)
Theorem decode_total_none_iff_short (payload : list byte) :
  ((List.length payload < 5)%nat -> decode_packed_24 payload = Ok None) /\
  ((5 <= List.length payload)%nat ->
   exists t rh batt, decode_packed_24 payload = Ok (Some (t, rh, batt))) /\
  (decode_packed_24 payload = Ok None <-> (List.length payload < 5)%nat).
Proof.
  assert (Hshort : (List.length payload < 5)%nat ->
                   decode_packed_24 payload = Ok None).
  { intros H. unfold decode_packed_24.
    apply Nat.ltb_lt in H. now rewrite H. }
  assert (Hlong : (5 <= List.length payload)%nat ->
                  exists t rh batt,
                    decode_packed_24 payload = Ok (Some (t, rh, batt))).
  { intros H.
    destruct (long_payload_shape payload H) as (b0 & b1 & b2 & b3 & b4 & rest & ->).
    destruct (decode_long b0 b1 b2 b3 b4 rest) as (m & h & _ & _ & E).
    rewrite E. eauto. }
  repeat split; try assumption.
  intros E. destruct (Nat.lt_ge_cases (List.length payload) 5) as [|Hge]; [assumption|].
  destruct (Hlong Hge) as (t & rh & batt & E'). congruence.
Qed.

Lemma decode_total_none_iff_short_witness :
  decode_packed_24 [x00; x01] = Ok None /\
  exists t rh batt, decode_packed_24 example_payload = Ok (Some (t, rh, batt)).
Proof.
  split.
  - apply (proj1 (decode_total_none_iff_short [x00; x01])). simpl. lia.
  - apply (proj1 (proj2 (decode_total_none_iff_short example_payload))).
    simpl. lia.
Defined.

(** *** The sign bit *)

Lemma land_bit23 (z : Z) :
  Z.land z 0x800000 = if Z.testbit z 23 then 0x800000 else 0.
Proof.
  change 0x800000 with (2 ^ 23).
  apply Z.bits_inj'. intros n Hn.
  rewrite Z.land_spec.
  destruct (Z.eq_dec n 23) as [->|Hne].
  - rewrite Z.pow2_bits_true by lia.
    destruct (Z.testbit z 23); [now rewrite Z.pow2_bits_true by lia|reflexivity].
  - rewrite Z.pow2_bits_false by lia. rewrite andb_false_r.
    destruct (Z.testbit z 23);
      [now rewrite Z.pow2_bits_false by lia | now rewrite Z.bits_0].
Qed.

Lemma is_negative_testbit (z : Z) :
  negb (Z.land z 0x800000 =? 0) = Z.testbit z 23.
Proof.
  rewrite land_bit23. now destruct (Z.testbit z 23).
Qed.

Lemma byte_with_top_bit_val (v : bool) (b : byte) :
  byte_val (byte_with_top_bit v b)
  = byte_val b mod 128 + (if v then 128 else 0).
Proof. destruct v, b; reflexivity. Qed.

Lemma split_bit23 (lo hi r : Z) :
  0 <= lo < 128 -> 0 <= r < 65536 -> 0 <= hi <= 1 ->
  let x := (lo + 128 * hi) * 65536 + r in
  x mod 8388608 = lo * 65536 + r /\ x / 8388608 = hi.
Proof.
  intros Hlo Hr Hhi x.
  assert (E : x = 8388608 * hi + (lo * 65536 + r)) by (unfold x; lia).
  split.
  - symmetry. apply (Z.mod_unique x 8388608 hi); [lia | exact E].
  - symmetry. apply (Z.div_unique x 8388608 hi (lo * 65536 + r)); [lia | exact E].
Qed.

Lemma raw24_with_sign_bit (v : bool) (b0 b1 b2 b3 : byte) (rest : list byte) :
  let p := b0 :: b1 :: b2 :: b3 :: rest in
  Z.land (raw24_of (with_sign_bit v p)) 0x7FFFFF = Z.land (raw24_of p) 0x7FFFFF /\
  Z.testbit (raw24_of (with_sign_bit v p)) 23 = v.
Proof.
  intros p. unfold p, with_sign_bit. rewrite !raw24_of_cons.
  rewrite byte_with_top_bit_val.
  pose proof (byte_val_range b1) as H1.
  pose proof (byte_val_range b2) as H2.
  pose proof (byte_val_range b3) as H3.
  pose proof (Z.mod_pos_bound (byte_val b1) 128 ltac:(lia)) as Hlo.
  set (lo := byte_val b1 mod 128) in *.
  set (r := byte_val b2 * 256 + byte_val b3).
  assert (Hr : 0 <= r < 65536) by (unfold r; lia).
  change 0x7FFFFF with (Z.ones 23). rewrite !Z.land_ones by lia.
  change (2 ^ 23) with 8388608.
  destruct (split_bit23 lo (if v then 1 else 0) r Hlo Hr
              ltac:(destruct v; lia)) as [Em Ed].
  destruct (split_bit23 lo (byte_val b1 / 128) r Hlo Hr
              ltac:(pose proof (Z.div_lt_upper_bound (byte_val b1) 128 2);
                    pose proof (Z.div_pos (byte_val b1) 128); lia)) as [Em' _].
  cbv zeta in Em, Ed, Em'.
  replace ((lo + (if v then 128 else 0)) * 65536 + byte_val b2 * 256 + byte_val b3)
    with ((lo + 128 * (if v then 1 else 0)) * 65536 + r)
    by (unfold r; destruct v; lia).
  replace (byte_val b1 * 65536 + byte_val b2 * 256 + byte_val b3)
    with ((lo + 128 * (byte_val b1 / 128)) * 65536 + r)
    by (unfold r, lo; pose proof (Z.div_mod (byte_val b1) 128); lia).
  split.
  - now rewrite Em, Em'.
  - destruct v.
    + apply Z.testbit_true; [lia|]. change (2 ^ 23) with 8388608.
      now rewrite Ed.
    + apply Z.testbit_false; [lia|]. change (2 ^ 23) with 8388608.
      now rewrite Ed.
Qed.

(** A payload of at least 4 bytes is its own version with the sign bit it
    has. *)
Lemma with_sign_bit_own (b0 b1 b2 b3 : byte) (rest : list byte) :
  let p := b0 :: b1 :: b2 :: b3 :: rest in
  with_sign_bit (Z.testbit (raw24_of p) 23) p = p.
Proof.
  intros p. unfold p, with_sign_bit. f_equal. f_equal.
  assert (E : Z.testbit (raw24_of (b0 :: b1 :: b2 :: b3 :: rest)) 23
              = Z.testbit (byte_val b1) 7).
  { rewrite raw24_of_cons.
    replace (byte_val b1 * 65536 + byte_val b2 * 256 + byte_val b3)
      with (byte_val b3 + (byte_val b2 + byte_val b1 * 2 ^ 8) * 2 ^ 8) by lia.
    pose proof (byte_val_range b2). pose proof (byte_val_range b3).
    rewrite <- (Z.div_pow2_bits _ 8 15) by lia.
    rewrite Z.div_add by lia. rewrite (Z.div_small (byte_val b3)) by lia.
    rewrite Z.add_0_l. change 15 with (7 + 8).
    rewrite <- (Z.div_pow2_bits _ 8 7) by lia.
    rewrite Z.div_add by lia. rewrite (Z.div_small (byte_val b2)) by lia.
    reflexivity. }
  rewrite E. destruct b1; reflexivity.
Qed.

Lemma humidity_range_all : forallb humidity_in_range (seq 0 1000) = true.
Proof. vm_compute. reflexivity. Qed.

Lemma humidity_bounds (z : Z) (h : float) :
  0 <= z < 1000 -> float_of_int z = Ok h ->
  PrimFloat.leb 0 (h / 10) = true /\ PrimFloat.ltb (h / 10) 100 = true.
Proof.
  intros Hz Hh.
  pose proof humidity_range_all as Hall.
  rewrite forallb_forall in Hall.
  specialize (Hall (Z.to_nat z)).
  unfold humidity_in_range in Hall. rewrite Z2Nat.id in Hall by lia.
  rewrite Hh in Hall. apply andb_true_iff. apply Hall.
  apply in_seq. lia.
Qed.

(** The decoder on the payload with its sign bit forced to [v]. *)
Lemma decode_with_sign_bit (v : bool) (b0 b1 b2 b3 b4 : byte) (rest : list byte)
      (m h : float) :
  let payload := b0 :: b1 :: b2 :: b3 :: b4 :: rest in
  let mag := Z.land (raw24_of payload) 0x7FFFFF in
  float_of_int mag = Ok m ->
  float_of_int (mag mod 1000) = Ok h ->
  decode_packed_24 (with_sign_bit v payload)
  = Ok (Some (if v then (- (m / 10000))%float else (m / 10000)%float,
              (h / 10)%float,
              if byte_val b4 <=? 100 then Some (byte_val b4) else None)).
Proof.
  intros payload mag Hm Hh.
  destruct (raw24_with_sign_bit v b0 b1 b2 b3 (b4 :: rest)) as [Emag Ebit].
  fold payload in Emag, Ebit.
  destruct (decode_long b0 (byte_with_top_bit v b1) b2 b3 b4 rest)
    as (m' & h' & Hm' & Hh' & E).
  change (b0 :: byte_with_top_bit v b1 :: b2 :: b3 :: b4 :: rest)
    with (with_sign_bit v payload) in *.
  rewrite Emag in Hm', Hh'. fold mag in Hm', Hh'.
  assert (m' = m) by congruence. assert (h' = h) by congruence. subst m' h'.
  rewrite E, is_negative_testbit, Ebit. reflexivity.
Qed.

(** C3. On every payload of at least 5 bytes, bit 23 of the big-endian
    integer of bytes 1..3 is a sign flag for the temperature only.  With
    [mag = raw24 & 0x7FFFFF]: the temperature is [mag / 10000.0], negated
    exactly when the bit is set; the humidity is [(mag mod 1000) / 10.0], is
    never negative, and is the same for the payload with the bit set and
    with the bit cleared, whose temperatures are each other's negation. *)
Theorem decode_sign_bit_temperature_only (payload : list byte) :
  (5 <= List.length payload)%nat ->
  let raw24 := raw24_of payload in
  let mag := Z.land raw24 0x7FFFFF in
  exists m h batt,
    float_of_int mag = Ok m /\
    float_of_int (mag mod 1000) = Ok h /\
    decode_packed_24 payload
    = Ok (Some (if Z.testbit raw24 23 then (- (m / 10000))%float
                else (m / 10000)%float,
                (h / 10)%float, batt)) /\
    PrimFloat.leb 0 (h / 10) = true /\
    Z.testbit raw24 23 = negb (Z.land raw24 0x800000 =? 0) /\
    (forall v : bool,
        Z.testbit (raw24_of (with_sign_bit v payload)) 23 = v /\
        Z.land (raw24_of (with_sign_bit v payload)) 0x7FFFFF = mag) /\
    decode_packed_24 (with_sign_bit true payload)
    = Ok (Some ((- (m / 10000))%float, (h / 10)%float, batt)) /\
    decode_packed_24 (with_sign_bit false payload)
    = Ok (Some ((m / 10000)%float, (h / 10)%float, batt)).
Proof.
  intros Hlen raw24 mag.
  destruct (long_payload_shape payload Hlen)
    as (b0 & b1 & b2 & b3 & b4 & rest & E).
  subst payload.
  destruct (decode_long b0 b1 b2 b3 b4 rest) as (m & h & Hm & Hh & Hdec).
  fold raw24 in Hm, Hh, Hdec. fold mag in Hm, Hh.
  exists m, h, (if byte_val b4 <=? 100 then Some (byte_val b4) else None).
  split; [exact Hm|]. split; [exact Hh|].
  split; [now rewrite Hdec, is_negative_testbit|].
  split.
  { apply (humidity_bounds (mag mod 1000) h); [|exact Hh].
    apply Z.mod_pos_bound. lia. }
  split; [symmetry; apply is_negative_testbit|].
  split.
  { intros v.
    destruct (raw24_with_sign_bit v b0 b1 b2 b3 (b4 :: rest)) as [Emag Ebit].
    split; [exact Ebit | exact Emag]. }
  split.
  - exact (decode_with_sign_bit true b0 b1 b2 b3 b4 rest m h Hm Hh).
  - exact (decode_with_sign_bit false b0 b1 b2 b3 b4 rest m h Hm Hh).
Qed.

(** A payload with the sign bit set: bytes 1..3 are 81 3F 91. *)
Lemma decode_sign_bit_temperature_only_witness :
  exists m h batt,
    float_of_int 81809 = Ok m /\
    float_of_int 809 = Ok h /\
    decode_packed_24 [x00; x81; x3f; x91; x64; x00]
    = Ok (Some ((- (m / 10000))%float, (h / 10)%float, batt)) /\
    PrimFloat.leb 0 (h / 10) = true /\
    decode_packed_24 example_payload
    = Ok (Some ((m / 10000)%float, (h / 10)%float, batt)).
Proof.
  destruct (decode_sign_bit_temperature_only [x00; x81; x3f; x91; x64; x00])
    as (m & h & batt & Hm & Hh & Hdec & Hpos & _ & _ & _ & Hclear).
  - simpl. lia.
  - exists m, h, batt. repeat split; assumption.
Defined.

(** Temperature and humidity are functions of bytes 1..3 alone. *)
Lemma decode_depends_on_raw24 (p q : list byte) :
  (5 <= List.length p)%nat -> (5 <= List.length q)%nat ->
  raw24_of p = raw24_of q ->
  exists t rh bp bq,
    decode_packed_24 p = Ok (Some (t, rh, bp)) /\
    decode_packed_24 q = Ok (Some (t, rh, bq)).
Proof.
  intros Hp Hq E.
  destruct (long_payload_shape p Hp) as (p0 & p1 & p2 & p3 & p4 & pr & ->).
  destruct (long_payload_shape q Hq) as (q0 & q1 & q2 & q3 & q4 & qr & ->).
  destruct (decode_long p0 p1 p2 p3 p4 pr) as (m & h & Hm & Hh & Ep).
  destruct (decode_long q0 q1 q2 q3 q4 qr) as (m' & h' & Hm' & Hh' & Eq).
  rewrite <- E in Hm', Hh', Eq.
  assert (m' = m) by congruence. assert (h' = h) by congruence. subst m' h'.
  rewrite Ep, Eq. eauto 8.
Qed.

(** C9. On a payload of at least 5 bytes whose byte at offset 4 exceeds 100,
    the decoder returns a reading (not [None], no exception) that carries no
    battery value; and whatever byte is put at offset 4 instead, the decoded
    temperature and humidity are the same: they depend on bytes 1..3 only. *)
Theorem decode_battery_over_100_absent (payload : list byte) (b4 : byte) :
  (5 <= List.length payload)%nat ->
  nth_error payload 4 = Some b4 ->
  100 < byte_val b4 ->
  exists t rh,
    decode_packed_24 payload = Ok (Some (t, rh, None)) /\
    (forall b : byte,
        decode_packed_24 (with_battery_byte b payload)
        = Ok (Some (t, rh,
                    if byte_val b <=? 100 then Some (byte_val b) else None))) /\
    (forall q : list byte,
        (5 <= List.length q)%nat -> raw24_of q = raw24_of payload ->
        exists bq, decode_packed_24 q = Ok (Some (t, rh, bq))).
Proof.
  intros Hlen Hb4 Hover.
  destruct (long_payload_shape payload Hlen)
    as (b0 & b1 & b2 & b3 & b4' & rest & ->).
  cbn in Hb4. injection Hb4 as ->.
  destruct (decode_long b0 b1 b2 b3 b4 rest) as (m & h & Hm & Hh & E).
  replace (byte_val b4 <=? 100) with false in E
    by (symmetry; apply Z.leb_gt; exact Hover).
  eexists _, _. split; [exact E|]. split.
  - intros b. cbn [with_battery_byte].
    destruct (decode_long b0 b1 b2 b3 b rest) as (m' & h' & Hm' & Hh' & E').
    rewrite !raw24_of_cons in *.
    assert (m' = m) by congruence. assert (h' = h) by congruence. subst m' h'.
    exact E'.
  - intros q Hq Eraw.
    destruct (decode_depends_on_raw24 _ q Hlen Hq (eq_sym Eraw))
      as (t & rh & bp & bq & Ep & Eq).
    rewrite E in Ep. injection Ep as <- <- _. eauto.
Qed.

(** The design document's case: battery byte 150 (0x96). *)
Lemma decode_battery_over_100_absent_witness :
  exists t rh,
    decode_packed_24 [x00; x01; x3f; x91; x96; x00] = Ok (Some (t, rh, None)) /\
    (forall b : byte,
        decode_packed_24 (with_battery_byte b [x00; x01; x3f; x91; x96; x00])
        = Ok (Some (t, rh,
                    if byte_val b <=? 100 then Some (byte_val b) else None))) /\
    (forall q : list byte,
        (5 <= List.length q)%nat ->
        raw24_of q = raw24_of [x00; x01; x3f; x91; x96; x00] ->
        exists bq, decode_packed_24 q = Ok (Some (t, rh, bq))).
Proof.
  apply (decode_battery_over_100_absent [x00; x01; x3f; x91; x96; x00] x96).
  - simpl. lia.
  - reflexivity.
  - vm_compute. reflexivity.
Defined.

(** ** Strings *)

Section StringFacts.
Local Open Scope string_scope.

Lemma append_assoc (a b c : string) : (a ++ b) ++ c = a ++ (b ++ c).
Proof. induction a as [|x a IH]; cbn; [reflexivity | now rewrite IH]. Qed.

Lemma append_empty_r (a : string) : a ++ EmptyString = a.
Proof. induction a as [|x a IH]; cbn; [reflexivity | now rewrite IH]. Qed.

Lemma truthy_append (a b : string) : truthy (a ++ b) = truthy a || truthy b.
Proof. destruct a; reflexivity. Qed.

Lemma bind_chars_app (f : ascii -> string) (a b : string) :
  bind_chars f (a ++ b) = bind_chars f a ++ bind_chars f b.
Proof.
  induction a as [|x a IH]; cbn; [reflexivity|].
  now rewrite IH, append_assoc.
Qed.

Lemma bind_chars_bind (f g : ascii -> string) (s : string) :
  bind_chars f (bind_chars g s) = bind_chars (fun c => bind_chars f (g c)) s.
Proof.
  induction s as [|x s IH]; cbn; [reflexivity|].
  now rewrite bind_chars_app, IH.
Qed.

Lemma bind_chars_ext (f g : ascii -> string) (s : string) :
  (forall c, f c = g c) -> bind_chars f s = bind_chars g s.
Proof.
  intros E. induction s as [|x s IH]; cbn; [reflexivity|].
  now rewrite E, IH.
Qed.

Lemma bind_chars_id (s : string) :
  bind_chars (fun c => String c EmptyString) s = s.
Proof. induction s as [|x s IH]; cbn; [reflexivity | now rewrite IH]. Qed.

(** [replace] of one character is a rewriting character by character. *)
Lemma replace_one_char (a : ascii) (new s : string) :
  replace (String a EmptyString) new s
  = bind_chars (fun c => if Ascii.eqb a c then new else String c EmptyString) s.
Proof.
  unfold replace.
  induction s as [|c s IH]; [reflexivity|].
  cbn [replace_from prefix bind_chars String.length Nat.sub].
  destruct (Ascii.ascii_dec a c) as [->|Hne].
  - rewrite Ascii.eqb_refl.
    replace (prefix EmptyString s) with true by (now destruct s).
    now rewrite IH.
  - apply Ascii.eqb_neq in Hne. rewrite Hne. cbn. now rewrite IH.
Qed.

(** The four substitutions in the order of the source escape every special
    character once: nothing is escaped twice. *)
Lemma lp_escape_chars (s : string) : lp_escape s = escape_chars s.
Proof.
  unfold lp_escape, escape_chars.
  change (String backslash EmptyString ++ String backslash EmptyString)
    with (String backslash (String backslash EmptyString)).
  rewrite !replace_one_char, !bind_chars_bind.
  apply bind_chars_ext.
  intros [[] [] [] [] [] [] [] []]; reflexivity.
Qed.

Lemma prefix_two_chars (a b c d : ascii) (t : string) :
  prefix (String a (String b EmptyString)) (String c (String d t))
  = Ascii.eqb a c && Ascii.eqb b d.
Proof.
  cbn [prefix].
  destruct (Ascii.ascii_dec a c) as [->|Hac].
  - rewrite Ascii.eqb_refl.
    destruct (Ascii.ascii_dec b d) as [->|Hbd].
    + rewrite Ascii.eqb_refl. now destruct t.
    + apply Ascii.eqb_neq in Hbd. now rewrite Hbd.
  - apply Ascii.eqb_neq in Hac. now rewrite Hac.
Qed.

(** [replace] with a pattern of two characters. *)
Lemma replace_two_chars (a b : ascii) (new s : string) :
  replace (String a (String b EmptyString)) new s = replace2 a b new s.
Proof.
  unfold replace.
  set (old := String a (String b EmptyString)).
  assert (G : forall n s, (String.length s <= n)%nat ->
                          replace_from old new 0 s = replace2 a b new s).
  { clear s. induction n as [|n IH]; intros s Hs.
    - destruct s; [reflexivity | cbn in Hs; lia].
    - destruct s as [|c [|d t]]; [reflexivity | |].
      + unfold old. cbn. destruct (Ascii.ascii_dec a c); reflexivity.
      + cbn [String.length] in Hs.
        change (replace_from old new 0 (String c (String d t)))
          with (if prefix old (String c (String d t))
                then new ++ replace_from old new 0 t
                else String c (replace_from old new 0 (String d t))).
        change (replace2 a b new (String c (String d t)))
          with (if Ascii.eqb a c && Ascii.eqb b d
                then new ++ replace2 a b new t
                else String c (replace2 a b new (String d t))).
        unfold old at 1. rewrite prefix_two_chars.
        rewrite (IH t) by lia.
        rewrite (IH (String d t)) by (cbn [String.length]; lia).
        reflexivity. }
  apply (G (String.length s)). lia.
Qed.

Lemma replace2_skip (a b : ascii) (new : string) (c : ascii) (rest : string) :
  Ascii.eqb a c && starts_with b rest = false ->
  replace2 a b new (String c rest) = String c (replace2 a b new rest).
Proof.
  intros Hn. destruct rest as [|d t]; [reflexivity|].
  cbn [replace2 starts_with] in *.
  rewrite (Ascii.eqb_sym b d). now rewrite Hn.
Qed.

Lemma replace2_hit (a b : ascii) (new rest : string) :
  replace2 a b new (String a (String b rest)) = new ++ replace2 a b new rest.
Proof. cbn [replace2]. now rewrite !Ascii.eqb_refl. Qed.

(** Undoing the escape of one character [x]. *)
Lemma unescape_pass (p : ascii -> bool) (x : ascii) (s : string) :
  p x = true -> p backslash = true ->
  replace2 backslash x (String x EmptyString) (bind_chars (escape_by p) s)
  = bind_chars (escape_by (fun c => p c && negb (Ascii.eqb c x))) s.
Proof.
  intros Hx Hb.
  assert (Hhead : forall r, Ascii.eqb x backslash = false ->
                            starts_with x (bind_chars (escape_by p) r) = false).
  { intros [|c r] Hxb; [reflexivity|].
    cbn [bind_chars]. unfold escape_by.
    destruct (p c) eqn:Hc; cbn [append starts_with].
    - now rewrite Ascii.eqb_sym.
    - destruct (Ascii.eqb_spec c x) as [->|]; [congruence | reflexivity]. }
  induction s as [|c s IH]; [reflexivity|].
  cbn [bind_chars]. unfold escape_by at 1 3.
  destruct (p c) eqn:Hc; cbn [andb append].
  - destruct (Ascii.eqb_spec c x) as [->|Hcx]; cbn [negb].
    + rewrite replace2_hit, IH. reflexivity.
    + rewrite replace2_skip.
      2:{ cbn [starts_with]. apply andb_false_iff. right.
          now apply Ascii.eqb_neq. }
      rewrite replace2_skip.
      2:{ destruct (Ascii.eqb_spec backslash c) as [<-|]; [|reflexivity].
          cbn [andb]. apply Hhead. apply Ascii.eqb_neq. congruence. }
      now rewrite IH.
  - rewrite replace2_skip.
    2:{ apply andb_false_iff. left. apply Ascii.eqb_neq. congruence. }
    now rewrite IH.
Qed.

(** Undoing the four substitutions, the last one first, gives the string
    back. *)
Lemma lp_unescape_escape (s : string) : lp_unescape (lp_escape s) = s.
Proof.
  rewrite lp_escape_chars. unfold lp_unescape, escape_chars.
  change (String backslash EmptyString ++ String backslash EmptyString)
    with (String backslash (String backslash EmptyString)).
  change "\=" with (String backslash (String "=" EmptyString)).
  change "\," with (String backslash (String "," EmptyString)).
  change "\ " with (String backslash (String " " EmptyString)).
  rewrite !replace_two_chars.
  rewrite (bind_chars_ext escape_char (escape_by is_special)) by reflexivity.
  rewrite (unescape_pass is_special "=") by reflexivity.
  rewrite (unescape_pass _ ",") by reflexivity.
  rewrite (unescape_pass _ " ") by reflexivity.
  rewrite (unescape_pass _ backslash) by reflexivity.
  rewrite <- (bind_chars_id s) at 2.
  apply bind_chars_ext.
  intros [[] [] [] [] [] [] [] []]; reflexivity.
Qed.

End StringFacts.

(** ** The escaping *)

Section Escaping.
Local Open Scope string_scope.

(** C8. The escaping puts one backslash before each backslash, space, comma
    and equals sign and changes nothing else; undoing the four substitutions
    in the reverse order gives the original string back, so the escaping is
    injective. *)
Theorem lp_escape_invertible (s : string) :
  lp_escape s = escape_chars s /\
  lp_unescape (lp_escape s) = s /\
  (forall s' : string, lp_escape s = lp_escape s' -> s = s').
Proof.
  split; [apply lp_escape_chars|].
  split; [apply lp_unescape_escape|].
  intros s' E.
  rewrite <- (lp_unescape_escape s), <- (lp_unescape_escape s').
  now rewrite E.
Qed.

(** A tag value with a space, a comma and an equals sign. *)
Lemma lp_escape_invertible_witness :
  lp_escape "a b,c=d" = "a\ b\,c\=d" /\
  lp_unescape "a\ b\,c\=d" = "a b,c=d" /\
  "a b,c=d" = "a b,c=d".
Proof.
  split; [exact (proj1 (lp_escape_invertible "a b,c=d"))|].
  split; [exact (proj1 (proj2 (lp_escape_invertible "a b,c=d")))|].
  exact (proj2 (proj2 (lp_escape_invertible "a b,c=d")) "a b,c=d" eq_refl).
Defined.

End Escaping.

(** ** The encoder *)

Section Encoder.
Context `{PyRuntime}.
Local Open Scope string_scope.

Lemma concat_empty_cons (x : string) (xs : list string) :
  String.concat EmptyString (x :: xs) = x ++ String.concat EmptyString xs.
Proof.
  destruct xs as [|y ys]; cbn [String.concat]; [now rewrite append_empty_r|].
  reflexivity.
Qed.

Lemma join_cons (sep p : string) (ps : list string) :
  join sep (p :: ps)
  = p ++ String.concat EmptyString (map (fun q => sep ++ q) ps).
Proof.
  unfold join. revert p.
  induction ps as [|q ps IH]; intros p.
  - cbn. now rewrite append_empty_r.
  - change (String.concat sep (p :: q :: ps))
      with (p ++ sep ++ String.concat sep (q :: ps)).
    rewrite IH. cbn [map]. rewrite concat_empty_cons.
    now rewrite append_assoc.
Qed.

Lemma fold_field_step (fields : dict string value) (acc : list string) :
  fold_left field_step fields acc
  = (acc ++ map pair_text (emitted_fields fields))%list.
Proof.
  revert acc. induction fields as [|[k v] fields IH]; intros acc.
  - cbn. now rewrite app_nil_r.
  - cbn [fold_left]. rewrite IH.
    unfold emitted_fields, pair_text. cbn [flat_map fst snd].
    fold (emitted_fields fields).
    destruct v as [|b|i|f|s]; cbn [field_step field_text].
    + reflexivity.
    + now rewrite <- app_assoc.
    + now rewrite <- app_assoc.
    + destruct (is_finite f); [now rewrite <- app_assoc | reflexivity].
    + now rewrite <- app_assoc.
Qed.

Lemma tag_parts_present (tags : dict string (option string)) :
  tag_parts tags
  = map (fun kv => pair_text (lp_escape (fst kv), lp_escape (snd kv)))
        (present_tags tags).
Proof.
  unfold tag_parts, present_tags.
  induction tags as [|[k [v|]] tags IH]; cbn [flat_map fst snd map app].
  - reflexivity.
  - now rewrite IH.
  - exact IH.
Qed.

(** The tag section: nothing without a tag, else a comma before each. *)
Lemma tag_section (ps : list (string * string)) :
  (if truthy (join "," (map pair_text ps))
   then "," ++ join "," (map pair_text ps) else EmptyString)
  = String.concat EmptyString (map (fun kv => "," ++ pair_text kv) ps).
Proof.
  destruct ps as [|p ps]; [reflexivity|].
  cbn [map]. rewrite join_cons, concat_empty_cons.
  unfold pair_text at 1. rewrite !truthy_append. cbn [truthy orb].
  rewrite orb_true_r. rewrite map_map. now rewrite !append_assoc.
Qed.

(** The encoder in terms of the parts of the line. *)
Lemma to_line_protocol_parts (m : string) (tags : dict string (option string))
      (fields : dict string value) (ts : Z) :
  to_line_protocol m tags fields ts
  = match emitted_fields fields with
    | [] => EmptyString
    | fs =>
        assemble (lp_escape m)
                 (map (fun kv => (lp_escape (fst kv), lp_escape (snd kv)))
                      (present_tags tags))
                 fs ts
    end.
Proof.
  unfold to_line_protocol.
  rewrite fold_field_step, tag_parts_present. cbn [app].
  rewrite <- (map_map (fun kv => (lp_escape (fst kv), lp_escape (snd kv)))
                      pair_text).
  rewrite tag_section.
  destruct (emitted_fields fields) as [|f fs]; reflexivity.
Qed.


(** The design document's example line. *)
Example to_line_protocol_office :
  float_repr 21.5 = "21.5" ->
  to_line_protocol "m" [("sensor", Some "Office")] [("temp_c", VFloat 21.5)] 1000
  = "m,sensor=Office temp_c=21.5 1000".
Proof. intros E. cbv -[float_repr]. now rewrite E. Qed.

Lemma assemble_truthy (m : string) (tags fields : list (string * string)) (ts : Z) :
  truthy (assemble m tags fields ts) = true.
Proof.
  unfold assemble. rewrite !truthy_append. cbn [truthy].
  now rewrite !orb_true_r.
Qed.

Lemma to_line_protocol_empty_iff (m : string) (tags : dict string (option string))
      (fields : dict string value) (ts : Z) :
  to_line_protocol m tags fields ts = EmptyString <-> emitted_fields fields = [].
Proof.
  rewrite to_line_protocol_parts.
  destruct (emitted_fields fields) as [|f fs]; [tauto|].
  split; [|discriminate].
  intros E. pose proof (assemble_truthy (lp_escape m)
    (map (fun kv => (lp_escape (fst kv), lp_escape (snd kv))) (present_tags tags))
    (f :: fs) ts) as T.
  rewrite E in T. discriminate.
Qed.

Lemma field_text_none_iff (v : value) :
  field_text v = None
  <-> v = VNone \/ exists f, v = VFloat f /\ PrimFloat.is_finite f = false.
Proof.
  destruct v as [|b|i|f|s]; cbn [field_text].
  - split; [now left | reflexivity].
  - split; [discriminate | intros [E|(f & E & _)]; discriminate].
  - split; [discriminate | intros [E|(f & E & _)]; discriminate].
  - destruct (is_finite f) eqn:Ef.
    + split; [discriminate|].
      intros [E|(f' & E & Ef')]; [discriminate|].
      injection E as <-. congruence.
    + split; [intros _; right; eauto | reflexivity].
  - split; [discriminate | intros [E|(f & E & _)]; discriminate].
Qed.

Lemma emitted_fields_nil_iff (fields : dict string value) :
  emitted_fields fields = []
  <-> forall k v, In (k, v) fields -> field_text v = None.
Proof.
  unfold emitted_fields. induction fields as [|[k v] fields IH]; cbn [flat_map].
  - split; [intros _ k v [] | reflexivity].
  - cbn [snd fst]. split.
    + intros E k' v' [Ein|Ein].
      * injection Ein as <- <-.
        destruct (field_text v); [discriminate | reflexivity].
      * apply app_eq_nil in E. destruct E as [_ E].
        apply (proj1 IH E k' v' Ein).
    + intros Hall. rewrite (Hall k v) by now left. cbn [app].
      apply IH. intros k' v' Hin. apply (Hall k' v'). now right.
Qed.

End Encoder.


(** ** Dictionaries *)

Section DictFacts.
Context {K V : Type} (keq : K -> K -> bool).
Hypothesis keq_eq : forall a b, keq a b = true <-> a = b.

Lemma keq_refl (a : K) : keq a a = true.
Proof. now apply keq_eq. Qed.

Lemma keq_neq (a b : K) : a <> b -> keq a b = false.
Proof.
  intros Hne. destruct (keq a b) eqn:E; [|reflexivity].
  apply keq_eq in E. contradiction.
Qed.

Lemma dict_get_set_same (d : dict K V) (k : K) (v : V) :
  dict_get keq (dict_set keq d k v) k = Some v.
Proof.
  induction d as [|[k' v'] d IH]; cbn [dict_set dict_get].
  - now rewrite keq_refl.
  - destruct (keq k' k) eqn:E; cbn [dict_get]; rewrite E; [reflexivity | exact IH].
Qed.

Lemma dict_get_set_other (d : dict K V) (k k0 : K) (v : V) :
  k <> k0 -> dict_get keq (dict_set keq d k v) k0 = dict_get keq d k0.
Proof.
  intros Hne.
  induction d as [|[k' v'] d IH]; cbn [dict_set dict_get].
  - now rewrite keq_neq.
  - destruct (keq k' k) eqn:E; cbn [dict_get].
    + apply keq_eq in E. subst k'. now rewrite keq_neq.
    + now rewrite IH.
Qed.

Lemma dict_set_keys (d : dict K V) (k k0 : K) (v : V) :
  In k0 (map fst (dict_set keq d k v)) <-> In k0 (map fst d) \/ k0 = k.
Proof.
  induction d as [|[k' v'] d IH]; cbn [dict_set map fst In].
  - intuition congruence.
  - destruct (keq k' k) eqn:E; cbn [map fst In].
    + apply keq_eq in E. subst k'. intuition congruence.
    + rewrite IH. tauto.
Qed.

Lemma dict_set_nodup (d : dict K V) (k : K) (v : V) :
  NoDup (map fst d) -> NoDup (map fst (dict_set keq d k v)).
Proof.
  induction d as [|[k' v'] d IH]; cbn [dict_set map fst]; intros Hnd.
  - constructor; [intros [] | constructor].
  - inversion Hnd as [|? ? Hnot Hnd']; subst.
    destruct (keq k' k) eqn:E; cbn [map fst].
    + now constructor.
    + constructor; [|now apply IH].
      rewrite dict_set_keys. intros [Hin | ->]; [contradiction|].
      rewrite keq_refl in E. discriminate.
Qed.

Lemma dict_get_in (d : dict K V) (k : K) (v : V) :
  dict_get keq d k = Some v -> In (k, v) d.
Proof.
  induction d as [|[k' v'] d IH]; cbn [dict_get]; [discriminate|].
  destruct (keq k' k) eqn:E.
  - apply keq_eq in E. subst k'. intros E'. injection E' as ->. now left.
  - intros Hg. right. now apply IH.
Qed.

Lemma dict_update_get_other (d e : dict K V) (k : K) :
  ~ In k (map fst e) ->
  dict_get keq (dict_update keq d e) k = dict_get keq d k.
Proof.
  unfold dict_update. revert d.
  induction e as [|[k' v'] e IH]; intros d Hnot; [reflexivity|].
  cbn [fold_left fst snd]. cbn [map fst In] in Hnot.
  rewrite IH by tauto. apply dict_get_set_other. intros ->. tauto.
Qed.

Lemma dict_update_get (d e : dict K V) (k : K) (v : V) :
  NoDup (map fst e) -> In (k, v) e ->
  dict_get keq (dict_update keq d e) k = Some v.
Proof.
  unfold dict_update. revert d.
  induction e as [|[k' v'] e IH]; intros d Hnd Hin; [destruct Hin|].
  cbn [map fst] in Hnd. inversion Hnd as [|? ? Hnot Hnd']; subst.
  cbn [fold_left fst snd].
  destruct Hin as [Heq|Hin]; [injection Heq as -> ->|].
  - fold (dict_update keq (dict_set keq d k v) e).
    rewrite dict_update_get_other by exact Hnot.
    apply dict_get_set_same.
  - now apply IH.
Qed.

End DictFacts.

(** ** The tag composer *)

Section ComposerFacts.
Context `{PyRuntime}.
Local Open Scope string_scope.

Lemma prefix_empty (s : string) : prefix EmptyString s = true.
Proof. now destruct s. Qed.

Lemma contains_eq_cons (c : ascii) (s : string) :
  contains "=" (String c s) = Ascii.eqb "=" c || contains "=" s.
Proof.
  cbn [contains prefix].
  destruct (Ascii.ascii_dec "=" c) as [<-|Hne].
  - now rewrite prefix_empty.
  - apply Ascii.eqb_neq in Hne. now rewrite Hne.
Qed.

(** An entry with an equals sign is cut at the first one. *)
Lemma split_once_first (s : string) :
  contains "=" s = true ->
  exists k v, s = k ++ "=" ++ v /\ contains "=" k = false /\
              split_once "=" s = [k; v].
Proof.
  induction s as [|c s IH]; [discriminate|].
  rewrite contains_eq_cons.
  destruct (Ascii.eqb_spec "=" c) as [<-|Hne]; cbn [orb].
  - intros _. exists EmptyString, s. repeat split. cbn [split_once prefix].
    destruct (Ascii.ascii_dec "=" "="); [|congruence].
    now rewrite prefix_empty.
  - intros Hs. destruct (IH Hs) as (k & v & -> & Hk & Hsplit).
    exists (String c k), v. split; [reflexivity|]. split.
    + rewrite contains_eq_cons, Hk.
      apply Ascii.eqb_neq in Hne. now rewrite Hne.
    + cbn [split_once prefix].
      destruct (Ascii.ascii_dec "=" c); [congruence|].
      now rewrite Hsplit.
Qed.

Lemma extra_step_with_eq (kv : string) :
  contains "=" kv = true ->
  exists k v, kv = k ++ "=" ++ v /\ contains "=" k = false /\
              extra_key kv = strip k /\
              forall d, extra_step d kv
                        = Ok (dict_set String.eqb d (strip k) (strip v)).
Proof.
  intros Hc. destruct (split_once_first kv Hc) as (k & v & E & Hk & Hs).
  exists k, v. unfold extra_step, extra_key. rewrite Hc, Hs. now repeat split.
Qed.

Lemma extra_step_without_eq (d : dict string string) (kv : string) :
  contains "=" kv = false -> extra_step d kv = Ok d.
Proof. intros Hc. unfold extra_step. now rewrite Hc. Qed.

Lemma extras_from_raise (e : exn) (extras : list string) :
  fold_left (fun acc kv => d <- acc ;; extra_step d kv) extras (Raise e)
  = Raise e.
Proof. induction extras as [|kv extras IH]; [reflexivity | exact IH]. Qed.

Lemma extras_from_cons (d : dict string string) (kv : string)
      (extras : list string) :
  extras_from d (kv :: extras)
  = d' <- extra_step d kv ;; extras_from d' extras.
Proof.
  unfold extras_from. cbn [fold_left bind].
  destruct (extra_step d kv) as [d'|e]; cbn [bind]; [reflexivity|].
  apply extras_from_raise.
Qed.

Lemma extras_from_app (d : dict string string) (l1 l2 : list string) :
  extras_from d (l1 ++ l2) = d' <- extras_from d l1 ;; extras_from d' l2.
Proof.
  revert d. induction l1 as [|kv l1 IH]; intros d; [reflexivity|].
  rewrite <- app_comm_cons, !extras_from_cons.
  destruct (extra_step d kv) as [d'|e]; cbn [bind]; [apply IH | reflexivity].
Qed.

Lemma extras_from_ok (d : dict string string) (extras : list string) :
  NoDup (map fst d) ->
  exists d', extras_from d extras = Ok d' /\ NoDup (map fst d').
Proof.
  revert d. induction extras as [|kv extras IH]; intros d Hnd.
  - exists d. now split.
  - rewrite extras_from_cons.
    destruct (contains "=" kv) eqn:Hc.
    + destruct (extra_step_with_eq kv Hc) as (k & v & _ & _ & _ & E).
      rewrite E. cbn [bind]. apply IH.
      apply dict_set_nodup; [apply String.eqb_eq | exact Hnd].
    + rewrite extra_step_without_eq by exact Hc. cbn [bind]. now apply IH.
Qed.

(** Entries that set other keys leave the value of [key] alone. *)
Lemma extras_from_keeps (d : dict string string) (extras : list string)
      (key : string) :
  (forall kv, In kv extras -> contains "=" kv = true -> extra_key kv <> key) ->
  forall d', extras_from d extras = Ok d' ->
             dict_get String.eqb d' key = dict_get String.eqb d key.
Proof.
  revert d. induction extras as [|kv extras IH]; intros d Hother d' E.
  - injection E as <-. reflexivity.
  - rewrite extras_from_cons in E.
    destruct (contains "=" kv) eqn:Hc.
    + destruct (extra_step_with_eq kv Hc) as (k & v & _ & _ & Ek & Es).
      rewrite Es in E. cbn [bind] in E.
      rewrite (IH _ (fun kv' Hin => Hother kv' (or_intror Hin)) d' E).
      apply dict_get_set_other; [apply String.eqb_eq|].
      rewrite <- Ek. apply Hother; [now left | exact Hc].
    + rewrite extra_step_without_eq in E by exact Hc. cbn [bind] in E.
      exact (IH _ (fun kv' Hin => Hother kv' (or_intror Hin)) d' E).
Qed.

(** An entry without an equals sign changes nothing. *)
Lemma parse_extras_skips (l1 l2 : list string) (kv : string) :
  contains "=" kv = false ->
  parse_extras (l1 ++ kv :: l2) = parse_extras (l1 ++ l2).
Proof.
  intros Hc.
  change (extras_from [] (l1 ++ kv :: l2) = extras_from [] (l1 ++ l2)).
  rewrite !extras_from_app.
  destruct (extras_from [] l1) as [d|e]; cbn [bind]; [|reflexivity].
  rewrite extras_from_cons, extra_step_without_eq by exact Hc. reflexivity.
Qed.

Lemma lstrip_by_spec (p : ascii -> bool) (s : string) :
  exists a, s = a ++ lstrip_by p s /\ all_chars p a = true /\
            forall c, first_char (lstrip_by p s) = Some c -> p c = false.
Proof.
  induction s as [|c s (a & E & Ha & Hf)].
  - exists EmptyString. repeat split. discriminate.
  - cbn [lstrip_by]. destruct (p c) eqn:Hc.
    + exists (String c a). cbn [append all_chars]. rewrite Hc, Ha.
      repeat split; [now rewrite <- E | exact Hf].
    + exists EmptyString. repeat split.
      intros c' E'. injection E' as <-. exact Hc.
Qed.

Lemma rstrip_by_spec (p : ascii -> bool) (s : string) :
  exists b, s = rstrip_by p s ++ b /\ all_chars p b = true /\
            (forall c, last_char (rstrip_by p s) = Some c -> p c = false) /\
            first_char (rstrip_by p s)
            = match rstrip_by p s with
              | EmptyString => None
              | String _ _ => first_char s
              end.
Proof.
  induction s as [|c s (b & E & Hb & Hl & _)].
  - exists EmptyString. repeat split. discriminate.
  - cbn [rstrip_by]. destruct (rstrip_by p s) as [|c' r] eqn:Er.
    + cbn [append] in E. subst b. destruct (p c) eqn:Hc.
      * exists (String c s). cbn [append all_chars]. rewrite Hc, Hb.
        repeat split. discriminate.
      * exists s. repeat split; [exact Hb|].
        intros c0 E0. injection E0 as <-. exact Hc.
    + exists b. split; [now rewrite E at 1|].
      split; [exact Hb|]. split; [|reflexivity].
      intros c0 E0. apply Hl. exact E0.
Qed.

(** [strip] takes white space off both ends and nothing else. *)
Lemma strip_spec (s : string) :
  exists a b, s = a ++ strip s ++ b /\
              all_chars is_space a = true /\ all_chars is_space b = true /\
              trimmed (strip s).
Proof.
  unfold strip.
  destruct (lstrip_by_spec is_space s) as (a & Ea & Ha & Hfirst).
  destruct (rstrip_by_spec is_space (lstrip_by is_space s))
    as (b & Eb & Hb & Hlast & Hf).
  exists a, b. split; [now rewrite <- Eb|]. repeat split; try assumption.
  intros c Hc. rewrite Hf in Hc.
  destruct (rstrip_by is_space (lstrip_by is_space s)); [discriminate|].
  now apply Hfirst.
Qed.

Lemma build_tags_ok (name mac : string) (extras : list string) :
  exists tags, build_tags name mac extras = Ok tags.
Proof.
  unfold build_tags.
  change (parse_extras extras) with (extras_from [] extras).
  destruct (extras_from_ok [] extras (NoDup_nil _)) as (d & E & _).
  rewrite E. cbn [bind]. eauto.
Qed.

(** The cut at the first equals sign is the only one with no equals sign
    before it. *)
Lemma first_eq_unique (a b x y : string) :
  a ++ "=" ++ x = b ++ "=" ++ y ->
  contains "=" a = false -> contains "=" b = false ->
  a = b /\ x = y.
Proof.
  revert b. induction a as [|c a IH]; intros [|c' b] Eq Ha Hb.
  - cbn in Eq. injection Eq as ->. now split.
  - cbn in Eq. injection Eq as <- _.
    rewrite contains_eq_cons in Hb. discriminate.
  - cbn in Eq. injection Eq as -> _.
    rewrite contains_eq_cons in Ha. discriminate.
  - cbn [append] in Eq. injection Eq as <- Eq.
    rewrite contains_eq_cons in Ha, Hb.
    apply orb_false_iff in Ha, Hb.
    destruct (IH b Eq (proj2 Ha) (proj2 Hb)) as [-> ->].
    now split.
Qed.

Lemma contains_eq_app (k v : string) : contains "=" (k ++ "=" ++ v) = true.
Proof.
  induction k as [|c k IH]; cbn [append] in *; rewrite contains_eq_cons.
  - reflexivity.
  - rewrite IH. apply orb_true_r.
Qed.

(** C10. An entry of the extra-tag list without an equals sign is passed
    over: the composed tags are those composed without it, and no exception
    is raised.  An entry with an equals sign is cut at the first one, the key
    and the value are both stripped of the white space around them, and the
    pair is set as a tag; it is the tag of the composed point unless a later
    entry sets the same key. *)
Theorem build_tags_extras (name mac : string) (l1 l2 : list string) (kv : string) :
  (contains "=" kv = false ->
   build_tags name mac (l1 ++ kv :: l2) = build_tags name mac (l1 ++ l2)) /\
  (contains "=" kv = true ->
   exists k v, kv = k ++ "=" ++ v /\ contains "=" k = false) /\
  (forall k v,
      kv = k ++ "=" ++ v -> contains "=" k = false ->
      trimmed (strip k) /\ trimmed (strip v) /\
      (forall d, extra_step d kv
                 = Ok (dict_set String.eqb d (strip k) (strip v))) /\
      ((forall kv', In kv' l2 -> contains "=" kv' = true ->
                    extra_key kv' <> strip k) ->
       exists tags,
         build_tags name mac (l1 ++ kv :: l2) = Ok tags /\
         dict_get String.eqb tags (strip k) = Some (Some (strip v)))) /\
  (exists tags, build_tags name mac (l1 ++ kv :: l2) = Ok tags).
Proof.
  split.
  { intros Hc. unfold build_tags. now rewrite parse_extras_skips. }
  split.
  { intros Hc. destruct (extra_step_with_eq kv Hc) as (k & v & E & Hk & _).
    eauto. }
  split.
  - intros k v E Hk.
    assert (Hc : contains "=" kv = true) by (rewrite E; apply contains_eq_app).
    destruct (extra_step_with_eq kv Hc) as (k' & v' & E' & Hk' & Ek & Es).
    rewrite E in E'. destruct (first_eq_unique k k' v v' E' Hk Hk') as [<- <-].
    split; [destruct (strip_spec k) as (? & ? & _ & _ & _ & T); exact T|].
    split; [destruct (strip_spec v) as (? & ? & _ & _ & _ & T); exact T|].
    split; [exact Es|].
    intros Hlater. unfold build_tags.
    change (parse_extras (l1 ++ kv :: l2)) with (extras_from [] (l1 ++ kv :: l2)).
    rewrite extras_from_app.
    destruct (extras_from_ok [] l1 (NoDup_nil _)) as (d1 & E1 & N1).
    rewrite E1. cbn [bind]. rewrite extras_from_cons, Es. cbn [bind].
    assert (N2 : NoDup (map fst (dict_set String.eqb d1 (strip k) (strip v))))
      by (apply dict_set_nodup; [apply String.eqb_eq | exact N1]).
    destruct (extras_from_ok _ l2 N2) as (d2 & E2 & N3).
    rewrite E2. cbn [bind]. eexists. split; [reflexivity|].
    assert (Hget : dict_get String.eqb d2 (strip k) = Some (strip v)).
    { rewrite (extras_from_keeps _ l2 (strip k) Hlater d2 E2).
      apply dict_get_set_same. apply String.eqb_eq. }
    apply dict_update_get; [apply String.eqb_eq | |].
    + now rewrite map_map.
    + apply (in_map (fun kv0 => (fst kv0, Some (snd kv0))) d2 (strip k, strip v)).
      apply (dict_get_in String.eqb String.eqb_eq). exact Hget.
  - apply build_tags_ok.
Qed.

End ComposerFacts.

(** Two extra tags after the name of a sensor: [junk] is passed over and
    [room = lab ] sets the tag [room] to [lab]. *)
Lemma build_tags_extras_witness :
  @build_tags example_runtime "GVH5075_1" "A4:C1" ["junk"; "room = lab "]%string
  = @build_tags example_runtime "GVH5075_1" "A4:C1" ["room = lab "]%string /\
  exists tags,
    @build_tags example_runtime "GVH5075_1" "A4:C1" ["room = lab "; "junk"]%string
    = Ok tags /\
    dict_get String.eqb tags "room"%string = Some (Some "lab"%string).
Proof.
  split.
  - apply (proj1 (@build_tags_extras example_runtime "GVH5075_1" "A4:C1"
                    [] ["room = lab "]%string "junk")).
    reflexivity.
  - destruct (proj1 (proj2 (proj2
                (@build_tags_extras example_runtime "GVH5075_1" "A4:C1"
                   [] ["junk"]%string "room = lab ")))
                "room "%string " lab "%string eq_refl eq_refl)
      as (_ & _ & _ & G).
    apply G. intros kv' [<-|[]]. discriminate.
Defined.

(** ** The scan window *)

Section ScanFacts.
Context `{PyRuntime}.
Local Open Scope string_scope.

Lemma cb_keeps_fields (args : scan_args) (d : detection) (ls ls' : list string) :
  Forall (carries_a_field args) ls ->
  cb args d ls = Ok ls' ->
  Forall (carries_a_field args) ls'.
Proof.
  intros Hls. unfold cb.
  destruct (dict_get Z.eqb _ KEY_EC88) as [payload|]; [|now intros [= <-]].
  destruct (decode_packed_24 payload) as [[[[t_c rh] batt]|]|e]; cbn [bind];
    [| now intros [= <-] | discriminate].
  destruct (build_tags _ _ _) as [tags|e]; cbn [bind]; [|discriminate].
  cbv zeta.
  match goal with
  | |- context [to_line_protocol ?m ?t ?f ?ts] =>
      set (fields := f); set (lp := to_line_protocol m t fields ts)
  end.
  destruct (truthy lp) eqn:Hlp; intros [= <-]; [|exact Hls].
  apply Forall_app. split; [exact Hls|].
  constructor; [|constructor].
  assert (Hne : lp <> EmptyString) by (intros E; rewrite E in Hlp; discriminate).
  split; [exact Hne|].
  exists tags, fields, (det_time_ns d). split; [reflexivity|].
  intros E. apply Hne. now apply to_line_protocol_empty_iff.
Qed.

Lemma deliver_keeps_fields (args : scan_args) (dets : list detection)
      (ls : list string) :
  Forall (carries_a_field args) ls ->
  Forall (carries_a_field args) (fold_left (deliver args) dets ls).
Proof.
  revert ls. induction dets as [|d dets IH]; intros ls Hls; [exact Hls|].
  cbn [fold_left]. apply IH. unfold deliver.
  destruct (cb args d ls) as [ls'|e] eqn:E; [|exact Hls].
  exact (cb_keeps_fields args d ls ls' Hls E).
Qed.

(** The callback raises nothing, so the listener never sees an exception of
    it. *)
Lemma cb_never_raises (args : scan_args) (d : detection) (ls : list string) :
  exists ls', cb args d ls = Ok ls'.
Proof.
  unfold cb.
  destruct (dict_get Z.eqb _ KEY_EC88) as [payload|]; [|eauto].
  destruct (decode_never_raises payload) as ([[[t_c rh] batt]|] & ->);
    cbn [bind]; [|eauto].
  destruct (build_tags_ok (opt_or (local_name (det_adv d))
                                  (opt_or (dev_name (det_dev d)) EmptyString))
                          (address (det_dev d)) (extra_tags args))
    as (tags & ->).
  cbn [bind]. cbv zeta.
  match goal with
  | |- context [if ?c then _ else _] => destruct c; eauto
  end.
Qed.

(** The runs of [scan_once], by what its four calls come to. *)
Lemma scan_once_runs (w : world) (args : scan_args) :
  let new := ScannerNew (seconds args) in
  let sleep := WindowSleep (seconds args) in
  let l0 := fold_left (deliver args) (fst (w new)) [] in
  let l1 := fold_left (deliver args) (fst (w ScannerStart)) l0 in
  let l2 := fold_left (deliver args) (fst (w sleep)) l1 in
  let l3 := fold_left (deliver args) (fst (w ScannerStop)) l2 in
  scan_once w args scan_start
  = match snd (w new), snd (w ScannerStart) with
    | Some e, _ => ({| calls := [new]; lines := l0 |}, Raise e)
    | None, Some e =>
        ({| calls := [new; ScannerStart]; lines := l1 |}, Raise e)
    | None, None =>
        ({| calls := [new; ScannerStart; sleep; ScannerStop]; lines := l3 |},
         match snd (w ScannerStop), snd (w sleep) with
         | Some e, _ => Raise e
         | None, Some e => Raise e
         | None, None => Ok l3
         end)
    end.
Proof.
  unfold scan_once, io_bind, try_finally, await, perform, get_lines, scan_start.
  destruct (w (ScannerNew (seconds args))) as [d0 [e0|]];
    cbn [fst snd calls lines app]; [reflexivity|].
  destruct (w ScannerStart) as [d1 [e1|]]; cbn [fst snd calls lines app];
    [reflexivity|].
  destruct (w (WindowSleep (seconds args))) as [d2 o2].
  destruct (w ScannerStop) as [d3 o3].
  cbn [fst snd calls lines app].
  destruct o3 as [e3|], o2 as [e2|]; reflexivity.
Qed.

(** C6. An encoder input whose fields are all [None] or non-finite floats
    gives the empty string (and only an input without a written field does);
    the callback appends no empty string: every line of the batch of a scan
    window is the encoding of a point with at least one written field. *)
Theorem zero_field_points_never_batched (w : world) (args : scan_args) :
  (forall m tags fields ts,
      (forall k v, In (k, v) fields ->
                   v = VNone \/
                   exists f, v = VFloat f /\ PrimFloat.is_finite f = false) ->
      to_line_protocol m tags fields ts = EmptyString) /\
  (forall m tags fields ts,
      to_line_protocol m tags fields ts = EmptyString
      <-> emitted_fields fields = []) /\
  (forall l, In l (lines (fst (scan_once w args scan_start))) ->
             carries_a_field args l) /\
  (forall batch, snd (scan_once w args scan_start) = Ok batch ->
                 batch = lines (fst (scan_once w args scan_start))).
Proof.
  split.
  { intros m tags fields ts Hall.
    apply to_line_protocol_empty_iff, emitted_fields_nil_iff.
    intros k v Hin. apply field_text_none_iff. exact (Hall k v Hin). }
  split; [intros; apply to_line_protocol_empty_iff|].
  pose proof (scan_once_runs w args) as R. cbv zeta in R.
  split.
  - intros l Hl. rewrite R in Hl.
    assert (G : Forall (carries_a_field args)
                       (lines (fst (scan_once w args scan_start)))).
    { rewrite R.
      destruct (snd (w (ScannerNew (seconds args)))), (snd (w ScannerStart));
        cbn [fst lines]; repeat apply deliver_keeps_fields; constructor. }
    rewrite R in G. rewrite Forall_forall in G. exact (G l Hl).
  - intros batch. rewrite R.
    destruct (snd (w (ScannerNew (seconds args)))); [discriminate|].
    destruct (snd (w ScannerStart)); [discriminate|]. cbn [fst snd lines].
    destruct (snd (w ScannerStop)); [discriminate|].
    destruct (snd (w (WindowSleep (seconds args)))); [discriminate|].
    now intros [= <-].
Qed.


End ScanFacts.

(** A field map of one [None] and one NaN, and a window with no detection. *)
Lemma zero_field_points_never_batched_witness :
  @to_line_protocol example_runtime "m" []
     [("a"%string, VNone); ("b"%string, VFloat nan)] 0 = EmptyString /\
  [] = lines (fst (@scan_once example_runtime (fun _ => ([], None))
                     {| seconds := 8; measurement := "m";
                        extra_tags := []; print_raw := false |} scan_start)).
Proof.
  pose proof (@zero_field_points_never_batched example_runtime
                (fun _ => ([], None))
                {| seconds := 8; measurement := "m";
                   extra_tags := []; print_raw := false |}) as (A & _ & _ & D).
  split.
  - apply A. intros k v [E|[E|[]]]; injection E as <- <-.
    + now left.
    + right. exists nan. split; reflexivity.
  - apply D. reflexivity.
Defined.

(** ** Delivery *)

Section DeliveryFacts.
Variables (endpoint : nat -> post_outcome) (jitter : nat -> float).
Variables (r : request) (max_retries : Z).


Lemma retryable_true (o : post_outcome) :
  retryable o = true -> exists e, attempt_body o = Raise e.
Proof.
  unfold retryable. destruct (attempt_body o) as [u|e]; [discriminate | eauto].
Qed.


(** Up to attempt 1023 the power of two is a float and the pause is
    [min(30, 2**attempt + jitter)]. *)
Lemma backoff_ok (attempt : nat) (j : float) :
  (attempt <= 1023)%nat ->
  exists f, float_of_int (2 ^ Z.of_nat attempt) = Ok f /\
            backoff attempt j = Ok (min_30 (f + j)).
Proof.
  intros Ha. unfold backoff, int_add_float, float_of_int.
  assert (Hlt : (Z.abs (2 ^ Z.of_nat attempt) <? DBL_OVERFLOW) = true).
  { apply Z.ltb_lt. rewrite Z.abs_eq by (apply Z.pow_nonneg; lia).
    apply Z.le_lt_trans with (2 ^ 1023).
    - apply Z.pow_le_mono_r; lia.
    - vm_compute. reflexivity. }
  rewrite Hlt. cbn [bind]. eauto.
Qed.

(** From attempt 1024 on the power of two is no float. *)
Lemma backoff_overflow (attempt : nat) (j : float) :
  (1024 <= attempt)%nat -> backoff attempt j = Raise OverflowError.
Proof.
  intros Ha. unfold backoff, int_add_float, float_of_int.
  assert (Hge : (Z.abs (2 ^ Z.of_nat attempt) <? DBL_OVERFLOW) = false).
  { apply Z.ltb_ge. rewrite Z.abs_eq by (apply Z.pow_nonneg; lia).
    apply Z.le_trans with (2 ^ 1024).
    - vm_compute. discriminate.
    - apply Z.pow_le_mono_r; lia. }
  now rewrite Hge.
Qed.



(** The loop meets only retryable posts up to attempt 1024, where the pause
    cannot be computed. *)
Lemma loop_overflows (k : nat) :
  forall remaining a : nat,
    (k < remaining)%nat ->
    (forall i, (a <= i <= a + k)%nat -> retryable (endpoint i) = true) ->
    (a + k = 1024)%nat ->
    Z.of_nat (a + k) < max_retries - 1 ->
    exists ds,
      map Ok ds = map (fun i => backoff i (jitter i)) (seq a k) /\
      write_v2_loop endpoint jitter r max_retries remaining a
      = (retries r a ds ++ [Post (a + k) r], Raise OverflowError).
Proof.
  induction k as [|k IH]; intros remaining a Hrem Hretry Hbig Hmax;
    (destruct remaining as [|remaining]; [lia|]); cbn [write_v2_loop];
    destruct (retryable_true _ (Hretry a ltac:(lia))) as (e & ->);
    (replace (Z.of_nat a =? max_retries - 1) with false
      by (symmetry; apply Z.eqb_neq; lia)).
  - rewrite Nat.add_0_r in *.
    rewrite backoff_overflow by lia.
    exists []. split; reflexivity.
  - destruct (backoff_ok a (jitter a) ltac:(lia)) as (f & _ & Eb).
    rewrite Eb.
    destruct (IH remaining (S a)) as (ds & Eds & ->).
    + lia.
    + intros i Hi. apply Hretry. lia.
    + lia.
    + lia.
    + exists (min_30 (f + jitter a) :: ds). split.
      * cbn [map seq]. now rewrite Eds, Eb.
      * cbn [retries app].
        now replace (S a + k)%nat with (a + S k)%nat by lia.
Qed.

Lemma attempts_retries (a : nat) (ds : list pynum) (tl : list delivery_event) :
  attempts (retries r a ds ++ tl) = (List.length ds + attempts tl)%nat.
Proof.
  revert a. induction ds as [|d ds IH]; intros a; [reflexivity|].
  cbn [retries]. rewrite <- !app_comm_cons.
  change (attempts (Post a r :: Sleep d :: retries r (S a) ds ++ tl))
    with (S (attempts (retries r (S a) ds ++ tl))).
  now rewrite IH.
Qed.


Lemma logged_retries (a : nat) (ds : list pynum) (tl : list delivery_event) :
  logged_failure (retries r a ds ++ tl) = logged_failure tl.
Proof.
  revert a. induction ds as [|d ds IH]; intros a; [reflexivity|].
  cbn [retries]. rewrite <- !app_comm_cons.
  change (logged_failure (Post a r :: Sleep d :: retries r (S a) ds ++ tl))
    with (logged_failure (retries r (S a) ds ++ tl)).
  now rewrite IH.
Qed.

End DeliveryFacts.

Section WriteV2.
Variables (endpoint : nat -> post_outcome) (jitter : nat -> float).
Variables (lp_lines : list string) (url bucket org token : string).
Variables (timeout : float) (max_retries : Z).

Let req : request :=
  make_request (join (String "010"%char EmptyString) lp_lines)
               url bucket org token timeout.
Let run : list delivery_event * result unit :=
  write_v2 endpoint jitter lp_lines url bucket org token timeout max_retries.



(** With a ceiling of 1026 or more and a dead endpoint, the pause after
    attempt 1024 needs [2**1024] as a float: [OverflowError] leaves
    [write_v2] after 1025 posts, and nothing is logged. *)
Lemma write_v2_overflows :
  1026 <= max_retries ->
  (forall i, (i <= 1024)%nat -> retryable (endpoint i) = true) ->
  snd run = Raise OverflowError /\
  attempts (fst run) = 1025%nat /\
  logged_failure (fst run) = false.
Proof.
  intros Hn Hretry.
  destruct (loop_overflows endpoint jitter req max_retries
              1024 (Z.to_nat max_retries) 0)
    as (ds & Eds & E).
  - lia.
  - intros i Hi. apply Hretry. lia.
  - reflexivity.
  - lia.
  - unfold run, write_v2. fold req. rewrite E. cbn [fst snd].
    split; [reflexivity|].
    split; [rewrite attempts_retries;
            apply (f_equal (@List.length _)) in Eds;
            rewrite !length_map, length_seq in Eds; cbn; lia|].
    now rewrite logged_retries.
Qed.

End WriteV2.





(** * Further properties *)

(** ** The decoder, continued *)

(** X1. Whenever the decoder returns a reading, the humidity is at least 0
    and below 100, and the battery value, when there is one, is from 0 to
    100. *)
Theorem decode_humidity_battery_ranges
        (payload : list byte) (t rh : float) (batt : option Z) :
  decode_packed_24 payload = Ok (Some (t, rh, batt)) ->
  PrimFloat.leb 0 rh = true /\ PrimFloat.ltb rh 100 = true /\
  (forall b, batt = Some b -> 0 <= b <= 100).
Proof.
  intros E.
  destruct (Nat.lt_ge_cases (List.length payload) 5) as [Hlt|Hge].
  { unfold decode_packed_24 in E. apply Nat.ltb_lt in Hlt.
    rewrite Hlt in E. discriminate. }
  destruct (long_payload_shape payload Hge)
    as (b0 & b1 & b2 & b3 & b4 & rest & ->).
  destruct (decode_long b0 b1 b2 b3 b4 rest) as (m & h & Hm & Hh & E').
  cbv zeta in *. rewrite E' in E. injection E as _ <- <-.
  destruct (humidity_bounds _ h
              (Z.mod_pos_bound _ 1000 ltac:(lia)) Hh) as [H0 H100].
  split; [exact H0|]. split; [exact H100|].
  intros b Hb. destruct (byte_val b4 <=? 100) eqn:Hle; [|discriminate].
  injection Hb as <-. apply Z.leb_le in Hle.
  pose proof (byte_val_range b4). lia.
Qed.

Lemma decode_humidity_battery_ranges_witness :
  PrimFloat.leb 0 0x1.439999999999ap+6 = true /\
  PrimFloat.ltb 0x1.439999999999ap+6 100 = true /\
  (forall b, Some 100 = Some b -> 0 <= b <= 100).
Proof.
  apply (decode_humidity_battery_ranges
           example_payload 0x1.05c9eecbfb15bp+3 0x1.439999999999ap+6 (Some 100)).
  vm_compute. reflexivity.
Defined.

(** X2. The reading is a function of the bytes at offsets 1 to 4: the byte
    at offset 0 and all bytes from offset 5 on are ignored. *)
Theorem decode_ignores_byte_0_and_tail
        (b0 b0' b1 b2 b3 b4 : byte) (rest rest' : list byte) :
  decode_packed_24 (b0 :: b1 :: b2 :: b3 :: b4 :: rest)
  = decode_packed_24 (b0' :: b1 :: b2 :: b3 :: b4 :: rest').
Proof.
  destruct (decode_long b0 b1 b2 b3 b4 rest) as (m & h & Hm & Hh & E).
  destruct (decode_long b0' b1 b2 b3 b4 rest') as (m' & h' & Hm' & Hh' & E').
  rewrite !raw24_of_cons in *.
  assert (m' = m) by congruence. assert (h' = h) by congruence. subst m' h'.
  now rewrite E, E'.
Qed.

(** ** The decoder of the debug script *)

Lemma land_clear_bit23 (z : Z) :
  0 <= z < 2 ^ 24 -> Z.testbit z 23 = false -> Z.land z 0x7FFFFF = z.
Proof.
  intros Hz Hbit. apply Z.bits_inj'. intros n Hn.
  rewrite Z.land_spec. change 0x7FFFFF with (Z.ones 23).
  destruct (Z.lt_ge_cases n 23) as [Hlt|Hge].
  - rewrite Z.ones_spec_low by lia. apply andb_true_r.
  - rewrite Z.ones_spec_high by lia. rewrite andb_false_r.
    destruct (Z.eq_dec n 23) as [->|Hne]; [now rewrite Hbit|].
    symmetry. destruct (Z.eq_dec z 0) as [->|Hz0]; [apply Z.bits_0|].
    apply Z.bits_above_log2; [lia|].
    apply Z.lt_le_trans with 24; [|lia].
    apply Z.log2_lt_pow2; lia.
Qed.

Lemma raw24_of_bounds (b0 b1 b2 b3 : byte) (rest : list byte) :
  0 <= raw24_of (b0 :: b1 :: b2 :: b3 :: rest) < 2 ^ 24.
Proof.
  rewrite raw24_of_cons.
  pose proof (byte_val_range b1). pose proof (byte_val_range b2).
  pose proof (byte_val_range b3).
  change (2 ^ 24) with 16777216. lia.
Qed.

Lemma debug_decode_long (b0 b1 b2 b3 b4 : byte) (rest : list byte) :
  let payload := b0 :: b1 :: b2 :: b3 :: b4 :: rest in
  let V := raw24_of payload in
  exists m h,
    float_of_int V = Ok m /\
    float_of_int (V mod 1000) = Ok h /\
    debug_decode_packed_24 payload
    = Ok (Some ((m / 10000)%float, (h / 10)%float,
                if byte_val b4 <=? 100 then Some (byte_val b4) else None)).
Proof.
  intros payload V.
  pose proof (raw24_of_bounds b0 b1 b2 b3 (b4 :: rest)) as HV. fold payload V in HV.
  destruct (int_truediv_float_small V 10000%float) as (m & Hm & Hdm);
    [lia | reflexivity |].
  destruct (int_truediv_float_small (V mod 1000) 10%float) as (h & Hh & Hdh);
    [pose proof (Z.mod_pos_bound V 1000); lia | reflexivity |].
  exists m, h. repeat split; try assumption.
  unfold debug_decode_packed_24.
  change (List.length payload <? 5)%nat
    with (S (S (S (S (S (List.length rest))))) <? 5)%nat.
  replace (S (S (S (S (S (List.length rest))))) <? 5)%nat with false
    by (symmetry; apply Nat.ltb_ge; lia).
  fold (raw24_of payload). fold V.
  rewrite Hdm, Hdh. cbn [bind index nth_error payload].
  destruct (byte_val b4 <=? 100); reflexivity.
Qed.

Lemma humidity_differs_all : forallb humidity_differs (seq 0 1000) = true.
Proof. vm_compute. reflexivity. Qed.

(** X3. The decoder of the debug script and the decoder of the collector
    return the same result on every payload shorter than 5 bytes and on
    every payload whose bit 23 is clear.  On a payload of at least 5 bytes
    whose bit 23 is set they return different readings: the debug script
    takes the sign bit for magnitude, and the two humidities differ. *)
Theorem debug_decoder_agrees_iff_sign_clear (payload : list byte) :
  ((List.length payload < 5)%nat \/ Z.testbit (raw24_of payload) 23 = false ->
   debug_decode_packed_24 payload = decode_packed_24 payload) /\
  ((5 <= List.length payload)%nat -> Z.testbit (raw24_of payload) 23 = true ->
   exists t rh batt t' rh',
     decode_packed_24 payload = Ok (Some (t, rh, batt)) /\
     debug_decode_packed_24 payload = Ok (Some (t', rh', batt)) /\
     PrimFloat.eqb rh rh' = false).
Proof.
  split.
  - intros [Hlt|Hbit].
    + unfold debug_decode_packed_24, decode_packed_24.
      apply Nat.ltb_lt in Hlt. now rewrite Hlt.
    + destruct (Nat.lt_ge_cases (List.length payload) 5) as [Hlt|Hge].
      { unfold debug_decode_packed_24, decode_packed_24.
        apply Nat.ltb_lt in Hlt. now rewrite Hlt. }
      destruct (long_payload_shape payload Hge)
        as (b0 & b1 & b2 & b3 & b4 & rest & ->).
      destruct (decode_long b0 b1 b2 b3 b4 rest) as (m & h & Hm & Hh & E).
      destruct (debug_decode_long b0 b1 b2 b3 b4 rest)
        as (m' & h' & Hm' & Hh' & E').
      cbv zeta in *.
      rewrite (land_clear_bit23 _ (raw24_of_bounds b0 b1 b2 b3 (b4 :: rest)) Hbit)
        in Hm, Hh.
      assert (m' = m) by congruence. assert (h' = h) by congruence. subst m' h'.
      rewrite E, E', is_negative_testbit, Hbit. reflexivity.
  - intros Hge Hbit.
    destruct (long_payload_shape payload Hge)
      as (b0 & b1 & b2 & b3 & b4 & rest & ->).
    destruct (decode_long b0 b1 b2 b3 b4 rest) as (m & h & Hm & Hh & E).
    destruct (debug_decode_long b0 b1 b2 b3 b4 rest)
      as (m' & h' & Hm' & Hh' & E').
    cbv zeta in *.
    eexists _, _, _, _, _. split; [exact E|]. split; [exact E'|].
    set (V := raw24_of (b0 :: b1 :: b2 :: b3 :: b4 :: rest)) in *.
    pose proof (raw24_of_bounds b0 b1 b2 b3 (b4 :: rest)) as HV. fold V in HV.
    assert (EV : V = Z.land V 0x7FFFFF + 8388608).
    { change 0x7FFFFF with (Z.ones 23). rewrite Z.land_ones by lia.
      change (2 ^ 23) with 8388608.
      apply Z.testbit_true in Hbit; [|lia]. change (2 ^ 23) with 8388608 in Hbit.
      pose proof (Z.div_mod V 8388608 ltac:(lia)) as Hdm.
      assert (Hq : 0 <= V / 8388608 < 2).
      { split; [apply Z.div_pos; lia|].
        apply Z.div_lt_upper_bound; change (2 ^ 24) with 16777216 in HV; lia. }
      assert (V / 8388608 = 1).
      { destruct (Z.eq_dec (V / 8388608) 0) as [E0|]; [|lia].
        rewrite E0 in Hbit. discriminate. }
      lia. }
    set (mag := Z.land V 0x7FFFFF) in *.
    set (n := mag mod 1000).
    assert (Hn : 0 <= n < 1000) by (apply Z.mod_pos_bound; lia).
    assert (EVn : V mod 1000 = (n + 608) mod 1000).
    { rewrite EV. unfold n.
      rewrite Z.add_mod by lia. change (8388608 mod 1000) with 608.
      reflexivity. }
    pose proof humidity_differs_all as Hall.
    rewrite forallb_forall in Hall. specialize (Hall (Z.to_nat n)).
    unfold humidity_differs in Hall. rewrite Z2Nat.id in Hall by lia.
    fold n in Hh. rewrite EVn in Hh'. rewrite Hh, Hh' in Hall.
    apply negb_true_iff. apply Hall. apply in_seq. lia.
Qed.

Lemma debug_decoder_agrees_iff_sign_clear_witness :
  debug_decode_packed_24 example_payload = decode_packed_24 example_payload /\
  exists t rh batt t' rh',
    decode_packed_24 [x00; x81; x3f; x91; x64; x00] = Ok (Some (t, rh, batt)) /\
    debug_decode_packed_24 [x00; x81; x3f; x91; x64; x00]
    = Ok (Some (t', rh', batt)) /\
    PrimFloat.eqb rh rh' = false.
Proof.
  split.
  - apply (proj1 (debug_decoder_agrees_iff_sign_clear example_payload)).
    right. reflexivity.
  - apply (proj2 (debug_decoder_agrees_iff_sign_clear
                    [x00; x81; x3f; x91; x64; x00])).
    + simpl. lia.
    + reflexivity.
Defined.

(** ** The escaping, continued *)

Section EscapingMore.
Local Open Scope string_scope.

Lemma length_append (a b : string) :
  String.length (a ++ b) = (String.length a + String.length b)%nat.
Proof. induction a as [|c a IH]; cbn; [reflexivity | now rewrite IH]. Qed.

Lemma escape_chars_length (s : string) :
  String.length (escape_chars s) = (String.length s + count_special s)%nat.
Proof.
  unfold escape_chars.
  induction s as [|c s IH]; [reflexivity|].
  change (bind_chars escape_char (String c s))
    with (escape_char c ++ bind_chars escape_char s).
  rewrite length_append, IH. cbn [count_special].
  unfold escape_char. destruct (is_special c); cbn [String.length]; lia.
Qed.

Lemma count_special_zero (s : string) :
  count_special s = O <-> all_chars (fun c => negb (is_special c)) s = true.
Proof.
  induction s as [|c s IH]; [cbn; tauto|].
  cbn [count_special all_chars]. destruct (is_special c); cbn [negb andb].
  - split; [lia | discriminate].
  - rewrite <- IH. cbn. tauto.
Qed.

(** X4. The escaping works character by character: the escape of a
    concatenation is the concatenation of the escapes, and the result is
    longer than the string by one character for each backslash, space, comma
    and equals sign in it. *)
Theorem lp_escape_concat_and_length (a b : string) :
  lp_escape (a ++ b) = lp_escape a ++ lp_escape b /\
  String.length (lp_escape a) = (String.length a + count_special a)%nat.
Proof.
  rewrite !lp_escape_chars. split.
  - apply bind_chars_app.
  - apply escape_chars_length.
Qed.

(** X5. The escaping leaves a string as it is exactly when the string has no
    backslash, space, comma or equals sign. *)
Theorem lp_escape_unchanged_iff_plain (s : string) :
  lp_escape s = s <-> all_chars (fun c => negb (is_special c)) s = true.
Proof.
  rewrite <- count_special_zero. split.
  - intros E. apply (f_equal String.length) in E.
    rewrite lp_escape_chars, escape_chars_length in E. lia.
  - intros Hz. rewrite lp_escape_chars. unfold escape_chars.
    induction s as [|c s IH]; [reflexivity|].
    cbn [count_special] in Hz.
    change (bind_chars escape_char (String c s))
      with (escape_char c ++ bind_chars escape_char s).
    unfold escape_char at 1.
    destruct (is_special c); [lia|].
    rewrite IH by lia. reflexivity.
Qed.

End EscapingMore.

Lemma lp_escape_unchanged_iff_plain_witness :
  lp_escape "humidity_pct" = "humidity_pct"%string /\
  all_chars (fun c => negb (is_special c)) "humidity_pct" = true.
Proof.
  split.
  - apply (proj2 (lp_escape_unchanged_iff_plain "humidity_pct")). reflexivity.
  - apply (proj1 (lp_escape_unchanged_iff_plain "humidity_pct")). reflexivity.
Defined.

(** ** The tag composer, continued *)

Section DictMore.
Context {K V : Type} (keq : K -> K -> bool).
Hypothesis keq_eq : forall a b, keq a b = true <-> a = b.

Lemma dict_get_none_notin (d : dict K V) (k : K) :
  dict_get keq d k = None -> ~ In k (map fst d).
Proof.
  induction d as [|[k' v'] d IH]; cbn [dict_get map fst In]; [tauto|].
  destruct (keq k' k) eqn:E; [discriminate|].
  intros Hg [->|Hin]; [|now apply IH].
  rewrite (keq_refl keq keq_eq) in E. discriminate.
Qed.

Lemma dict_set_keys_grow (d : dict K V) (k : K) (v : V) :
  exists more, map fst (dict_set keq d k v) = (map fst d ++ more)%list.
Proof.
  induction d as [|[k' v'] d (more & IH)]; cbn [dict_set map fst].
  - now exists [k].
  - destruct (keq k' k); cbn [map fst].
    + exists []. now rewrite app_nil_r.
    + exists more. now rewrite IH.
Qed.

Lemma dict_update_keys_grow (d e : dict K V) :
  exists more, map fst (dict_update keq d e) = (map fst d ++ more)%list.
Proof.
  unfold dict_update. revert d.
  induction e as [|[k v] e IH]; intros d; cbn [fold_left fst snd].
  - exists []. now rewrite app_nil_r.
  - destruct (IH (dict_set keq d k v)) as (more & E).
    destruct (dict_set_keys_grow d k v) as (more' & E').
    exists (more' ++ more)%list. now rewrite E, E', app_assoc.
Qed.

Lemma dict_update_nodup (d e : dict K V) :
  NoDup (map fst d) -> NoDup (map fst (dict_update keq d e)).
Proof.
  unfold dict_update. revert d.
  induction e as [|[k v] e IH]; intros d Hnd; [exact Hnd|].
  cbn [fold_left fst snd]. apply IH. now apply dict_set_nodup.
Qed.

End DictMore.

Section ComposerMore.
Context `{PyRuntime}.
Local Open Scope string_scope.

Lemma extra_step_key_value (d : dict string string) (kv : string) :
  contains "=" kv = true ->
  extra_step d kv
  = Ok (dict_set String.eqb d (extra_key kv) (extra_value kv)).
Proof.
  intros Hc. destruct (split_once_first kv Hc) as (k & v & _ & _ & Hs).
  unfold extra_step, extra_key, extra_value. now rewrite Hc, Hs.
Qed.

(** What the loop over [extras] leaves under [key]. *)
Lemma extras_from_lookup (key : string) (extras : list string) :
  forall d d', extras_from d extras = Ok d' ->
               dict_get String.eqb d' key
               = match last_extra key extras with
                 | Some v => Some v
                 | None => dict_get String.eqb d key
                 end.
Proof.
  induction extras as [|kv extras IH]; intros d d' E.
  - injection E as <-. reflexivity.
  - rewrite extras_from_cons in E. cbn [last_extra].
    destruct (contains "=" kv) eqn:Hc.
    + rewrite extra_step_key_value in E by exact Hc. cbn [bind] in E.
      rewrite (IH _ _ E).
      destruct (last_extra key extras); [reflexivity|]. cbn [andb].
      destruct (String.eqb_spec (extra_key kv) key) as [->|Hne].
      * apply dict_get_set_same. apply String.eqb_eq.
      * apply dict_get_set_other; [apply String.eqb_eq | exact Hne].
    + rewrite extra_step_without_eq in E by exact Hc. cbn [bind] in E.
      rewrite (IH _ _ E). cbn [andb].
      now destruct (last_extra key extras).
Qed.

(** X6. [build_tags] never raises, and the tag under any key is the value of
    the last extra entry that sets this key, stripped; when no extra entry
    sets it, it is the built-in tag ([sensor], [mac], [host], [model]), if
    the key is one of these.  So an extra tag replaces a built-in one. *)
Theorem build_tags_lookup (name mac : string) (extras : list string)
        (key : string) :
  exists tags,
    build_tags name mac extras = Ok tags /\
    dict_get String.eqb tags key
    = match last_extra key extras with
      | Some v => Some (Some v)
      | None => dict_get String.eqb (builtin_tags name mac) key
      end.
Proof.
  unfold build_tags.
  change (parse_extras extras) with (extras_from [] extras).
  destruct (extras_from_ok [] extras (NoDup_nil _)) as (E & HE & Hnd).
  rewrite HE. cbn [bind]. eexists. split; [reflexivity|].
  fold (builtin_tags name mac).
  pose proof (extras_from_lookup key extras [] E HE) as L.
  cbn [dict_get] in L.
  destruct (last_extra key extras) as [v|].
  - apply dict_update_get; [apply String.eqb_eq | now rewrite map_map |].
    apply (in_map (fun kv0 => (fst kv0, Some (snd kv0))) E (key, v)).
    apply (dict_get_in String.eqb String.eqb_eq). exact L.
  - apply dict_update_get_other; [apply String.eqb_eq|].
    rewrite map_map. cbn [fst].
    apply (dict_get_none_notin String.eqb String.eqb_eq). exact L.
Qed.

(** X7. The composed tags begin with the keys [sensor], [mac], [host],
    [model], in this order, also when extra tags replace their values; the
    keys that only the extra tags bring come after them, and no key occurs
    twice. *)
Theorem build_tags_key_order (name mac : string) (extras : list string) :
  exists tags more,
    build_tags name mac extras = Ok tags /\
    map fst tags = ("sensor" :: "mac" :: "host" :: "model" :: more)%list /\
    NoDup (map fst tags).
Proof.
  unfold build_tags.
  change (parse_extras extras) with (extras_from [] extras).
  destruct (extras_from_ok [] extras (NoDup_nil _)) as (E & HE & Hnd).
  rewrite HE. cbn [bind]. fold (builtin_tags name mac).
  destruct (dict_update_keys_grow String.eqb (builtin_tags name mac)
              (map (fun kv => (fst kv, Some (snd kv))) E)) as (more & Ek).
  eexists _, more. split; [reflexivity|]. split; [exact Ek|].
  apply dict_update_nodup; [apply String.eqb_eq|].
  cbn. repeat constructor; cbn; intuition discriminate.
Qed.

End ComposerMore.

(** ** The scan window, continued *)

Section ScanMore.
Context `{PyRuntime}.
Local Open Scope string_scope.










End ScanMore.


(** ** Delivery, continued *)

Section DeliveryMore.
Variables (endpoint : nat -> post_outcome) (jitter : nat -> float).
Variables (r : request) (max_retries : Z).

Lemma backoff_within_30 (a : nat) (j : float) (d : pynum) :
  backoff a j = Ok d -> within_30 d = true.
Proof.
  unfold backoff, int_add_float.
  destruct (float_of_int (2 ^ Z.of_nat a)) as [f|e]; cbn [bind]; [|discriminate].
  intros E. injection E as <-. unfold min_30.
  destruct (PrimFloat.ltb (f + j) 30) eqn:Hlt; [exact Hlt | reflexivity].
Qed.

(** The shape of every run of the loop, when [remaining] turns are all that
    is left of [range(max_retries)]. *)
Lemma loop_shape (remaining : nat) :
  forall a : nat,
    remaining = O \/ Z.of_nat (a + remaining) = max_retries ->
    exists n,
      (n <= remaining)%nat /\ (remaining <> O -> n <> O) /\
      posts_of (fst (write_v2_loop endpoint jitter r max_retries remaining a))
      = map (fun i => Post i r) (seq a n) /\
      List.length
        (sleeps (fst (write_v2_loop endpoint jitter r max_retries remaining a)))
      = Nat.pred n /\
      forallb within_30
        (sleeps (fst (write_v2_loop endpoint jitter r max_retries remaining a)))
      = true.
Proof.
  induction remaining as [|remaining IH]; intros a Hinv.
  - exists O. cbn. repeat split; lia.
  - destruct Hinv as [Hinv|Hinv]; [discriminate|].
    cbn [write_v2_loop].
    destruct (attempt_body (endpoint a)) as [u|e].
    { exists 1%nat. cbn. repeat split; lia. }
    destruct (Z.of_nat a =? max_retries - 1) eqn:Hlast.
    { exists 1%nat. cbn. repeat split; lia. }
    destruct (backoff a (jitter a)) as [d|e'] eqn:Eb.
    2:{ exists 1%nat. cbn. repeat split; lia. }
    apply Z.eqb_neq in Hlast.
    destruct (IH (S a)) as (n & Hn & Hpos & Hposts & Hslp & Hok).
    { right. lia. }
    destruct (write_v2_loop endpoint jitter r max_retries remaining (S a))
      as [evs out].
    cbn [fst] in *.
    assert (Hrem : remaining <> O) by lia.
    specialize (Hpos Hrem).
    exists (S n). split; [lia|]. split; [discriminate|].
    split; [|split].
    + change (posts_of (Post a r :: Sleep d :: evs))
        with (Post a r :: posts_of evs).
      rewrite Hposts. reflexivity.
    + change (sleeps (Post a r :: Sleep d :: evs)) with (d :: sleeps evs).
      cbn [List.length]. rewrite Hslp. cbn [Nat.pred]. lia.
    + change (sleeps (Post a r :: Sleep d :: evs)) with (d :: sleeps evs).
      cbn [forallb]. rewrite Hok, (backoff_within_30 a (jitter a) d Eb).
      reflexivity.
Qed.

(** With a ceiling of at most 1025 the loop raises nothing. *)
Lemma loop_never_raises (remaining : nat) :
  forall a : nat,
    remaining = O \/ Z.of_nat (a + remaining) = max_retries ->
    max_retries <= 1025 ->
    snd (write_v2_loop endpoint jitter r max_retries remaining a) = Ok tt.
Proof.
  induction remaining as [|remaining IH]; intros a Hinv Hmax; [reflexivity|].
  destruct Hinv as [Hinv|Hinv]; [discriminate|].
  cbn [write_v2_loop].
  destruct (attempt_body (endpoint a)) as [u|e]; [reflexivity|].
  destruct (Z.of_nat a =? max_retries - 1) eqn:Hlast; [reflexivity|].
  apply Z.eqb_neq in Hlast.
  destruct (backoff_ok a (jitter a) ltac:(lia)) as (f & _ & ->).
  specialize (IH (S a) ltac:(right; lia) Hmax).
  destruct (write_v2_loop endpoint jitter r max_retries remaining (S a))
    as [evs out].
  exact IH.
Qed.


End DeliveryMore.

Section WriteV2More.
Variables (endpoint : nat -> post_outcome) (jitter : nat -> float).
Variables (lp_lines : list string) (url bucket org token : string).
Variables (timeout : float) (max_retries : Z).

Let req : request :=
  make_request (join (String "010"%char EmptyString) lp_lines)
               url bucket org token timeout.
Let run : list delivery_event * result unit :=
  write_v2 endpoint jitter lp_lines url bucket org token timeout max_retries.





End WriteV2More.

Lemma rstrip_by_app_dropped (p : ascii -> bool) (c : ascii) (s : string) :
  p c = true ->
  rstrip_by p (s ++ String c EmptyString) = rstrip_by p s.
Proof.
  intros Hc. induction s as [|x s IH].
  - cbn. now rewrite Hc.
  - cbn [append rstrip_by]. now rewrite IH.
Qed.

(** X13. One more slash at the end of the URL changes nothing: the run of
    [write_v2], with the request of every post in it, is the same. *)
Theorem write_v2_trailing_slash
        (endpoint : nat -> post_outcome) (jitter : nat -> float)
        (lp_lines : list string) (url bucket org token : string)
        (timeout : float) (max_retries : Z) :
  write_v2 endpoint jitter lp_lines (url ++ "/") bucket org token timeout
           max_retries
  = write_v2 endpoint jitter lp_lines url bucket org token timeout max_retries.
Proof.
  unfold write_v2, make_request, rstrip_char.
  now rewrite rstrip_by_app_dropped by reflexivity.
Qed.



(** ** The scheduler *)

Section SchedulerFacts.
Context `{PyRuntime}.
Variables (a : main_args) (mw : main_world).

Lemma write_v2_default_ok (ep : nat -> post_outcome) (jit : nat -> float)
      (ls : list string) (url bucket org token : string) :
  snd (write_v2 ep jit ls url bucket org token 5 5) = Ok tt /\
  (1 <= attempts (fst (write_v2 ep jit ls url bucket org token 5 5)) <= 5)%nat.
Proof.
  split.
  - unfold write_v2. apply loop_never_raises; [right; reflexivity | lia].
  - unfold write_v2.
    destruct (loop_shape ep jit
                (make_request (join (String "010"%char EmptyString) ls)
                              url bucket org token 5)
                5 (Z.to_nat 5) 0 ltac:(right; reflexivity))
      as (n & Hn & Hpos & Hposts & _).
    unfold attempts.
    match goal with
    | |- context [filter ?f ?l] => change (filter f l) with (posts_of l)
    end.
    rewrite Hposts, length_map, length_seq.
    change (Z.to_nat 5) with 5%nat in *.
    specialize (Hpos ltac:(discriminate)). lia.
Qed.

(** One cycle: a scan, and a delivery when the scan returned lines. *)
Lemma cycle_cases (token : string) (i : nat) :
  let sc := scan_once (scan_world mw i) (scan_args_of a) scan_start in
  (exists e, snd sc = Raise e /\
             cycle a mw token i = ([Scanned i (calls (fst sc))], Raise e)) \/
  (snd sc = Ok [] /\
   cycle a mw token i = ([Scanned i (calls (fst sc))], Ok tt)) \/
  (exists l ls,
      snd sc = Ok (l :: ls) /\
      cycle a mw token i
      = ([Scanned i (calls (fst sc));
          Delivered i (fst (write_v2 (post_world mw i) (jitter_world mw i)
                                     (l :: ls) (arg_url a) (arg_bucket a)
                                     (arg_org a) token 5 5))],
         Ok tt)).
Proof.
  intros sc. unfold cycle. fold sc.
  destruct sc as [s [[|l ls]|e]]; cbn [fst snd].
  - right. left. now split.
  - right. right. exists l, ls. split; [reflexivity|].
    destruct (write_v2_default_ok (post_world mw i) (jitter_world mw i)
                (l :: ls) (arg_url a) (arg_bucket a) (arg_org a) token)
      as [Hok _].
    destruct (write_v2 _ _ _ _ _ _ _ _ _) as [evs o]. cbn [fst snd] in *.
    now rewrite Hok.
  - left. exists e. now split.
Qed.

Lemma cycle_counts (token : string) (i : nat) :
  scans (fst (cycle a mw token i)) = 1%nat /\
  (all_posts (fst (cycle a mw token i)) <= 5)%nat.
Proof.
  destruct (cycle_cases token i) as [(e & _ & E)|[(_ & E)|(l & ls & _ & E)]];
    rewrite E; cbn [fst].
  - split; [reflexivity | cbn; lia].
  - split; [reflexivity | cbn; lia].
  - destruct (write_v2_default_ok (post_world mw i) (jitter_world mw i)
                (l :: ls) (arg_url a) (arg_bucket a) (arg_org a) token)
      as [_ Hn].
    split; [reflexivity|].
    unfold all_posts, list_sum. cbn [map fold_right]. lia.
Qed.

Lemma scans_app (x y : list main_event) :
  scans (x ++ y) = (scans x + scans y)%nat.
Proof. unfold scans. now rewrite filter_app, length_app. Qed.

Lemma all_posts_app (x y : list main_event) :
  all_posts (x ++ y) = (all_posts x + all_posts y)%nat.
Proof.
  unfold all_posts. now rewrite map_app, list_sum_app.
Qed.

(** The loop, looked at for [fuel] cycles: it has not returned; it made
    [fuel] scans when it is still running, fewer or as many when it raised;
    it made at most 5 posts for each scan. *)
Lemma main_loop_counts (token : string) (fuel : nat) :
  forall i,
    let run := main_loop a mw token fuel i in
    (snd run = MainRunning \/ exists e, snd run = MainRaised e) /\
    (snd run = MainRunning -> scans (fst run) = fuel) /\
    (scans (fst run) <= fuel)%nat /\
    (all_posts (fst run) <= 5 * scans (fst run))%nat.
Proof.
  induction fuel as [|fuel IH]; intros i; cbn [main_loop].
  - cbn. repeat split; try lia. now left.
  - pose proof (cycle_counts token i) as [Hs Hp].
    destruct (cycle a mw token i) as [evs [u|e]]; cbn [fst snd] in *.
    2:{ repeat split; try lia; [right; eauto | discriminate]. }
    destruct (interval_sleep mw i) as [e|].
    { cbn [fst snd]. rewrite scans_app, all_posts_app.
      change (scans [Slept i (arg_interval a)]) with O.
      change (all_posts [Slept i (arg_interval a)]) with O.
      repeat split; try lia; [right; eauto | discriminate]. }
    specialize (IH (S i)). cbv zeta in IH.
    destruct (main_loop a mw token fuel (S i)) as [evs' o]. cbn [fst snd] in *.
    destruct IH as (Ho & Hrun & Hle & Hposts).
    change (evs ++ Slept i (arg_interval a) :: evs')
      with (evs ++ [Slept i (arg_interval a)] ++ evs').
    rewrite !scans_app, !all_posts_app.
    change (scans [Slept i (arg_interval a)]) with O.
    change (all_posts [Slept i (arg_interval a)]) with O.
    repeat split; try lia; [exact Ho|].
    intros Hr. specialize (Hrun Hr). lia.
Qed.

(** Looking one cycle longer only adds to what was seen; a run that has
    raised stays as it is. *)
Lemma main_loop_extends (token : string) (fuel : nat) :
  forall i,
    (exists more,
        fst (main_loop a mw token (S fuel) i)
        = fst (main_loop a mw token fuel i) ++ more) /\
    (snd (main_loop a mw token fuel i) <> MainRunning ->
     main_loop a mw token (S fuel) i = main_loop a mw token fuel i).
Proof.
  induction fuel as [|fuel IH]; intros i.
  - split; [now eexists | intros Hn; now contradiction Hn].
  - specialize (IH (S i)). destruct IH as [(more & Emore) Hstay].
    change (main_loop a mw token (S (S fuel)) i)
      with (match cycle a mw token i with
            | (evs, Raise e) => (evs, MainRaised e)
            | (evs, Ok _) =>
                match interval_sleep mw i with
                | Some e => (evs ++ [Slept i (arg_interval a)], MainRaised e)
                | None =>
                    let '(evs', o) := main_loop a mw token (S fuel) (S i) in
                    (evs ++ Slept i (arg_interval a) :: evs', o)
                end
            end).
    change (main_loop a mw token (S fuel) i)
      with (match cycle a mw token i with
            | (evs, Raise e) => (evs, MainRaised e)
            | (evs, Ok _) =>
                match interval_sleep mw i with
                | Some e => (evs ++ [Slept i (arg_interval a)], MainRaised e)
                | None =>
                    let '(evs', o) := main_loop a mw token fuel (S i) in
                    (evs ++ Slept i (arg_interval a) :: evs', o)
                end
            end).
    destruct (cycle a mw token i) as [evs [u|e]].
    2:{ split; [exists []; now rewrite app_nil_r | reflexivity]. }
    destruct (interval_sleep mw i) as [e|].
    { split; [exists []; now rewrite app_nil_r | reflexivity]. }
    destruct (main_loop a mw token (S fuel) (S i)) as [evs2 o2].
    destruct (main_loop a mw token fuel (S i)) as [evs1 o1].
    cbn [fst snd] in *. split.
    + exists more. rewrite Emore.
      now rewrite <- app_assoc, <- app_comm_cons.
    + intros Hn. specialize (Hstay Hn). now injection Hstay as -> ->.
Qed.

(** Where the events of the loop come from. *)
Lemma main_loop_delivered (token : string) (fuel : nat) :
  forall i k evs,
    In (Delivered k evs) (fst (main_loop a mw token fuel i)) ->
    In (Delivered k evs) (fst (cycle a mw token k)).
Proof.
  induction fuel as [|fuel IH]; intros i k evs; cbn [main_loop];
    [intros []|].
  assert (Hc : In (Delivered k evs) (fst (cycle a mw token i)) ->
               In (Delivered k evs) (fst (cycle a mw token k))).
  { intros Hin.
    destruct (cycle_cases token i)
      as [(e & _ & E)|[(_ & E)|(l & ls & _ & E)]];
      rewrite E in Hin; cbn [fst In] in Hin.
    - destruct Hin as [Hin|[]]; discriminate.
    - destruct Hin as [Hin|[]]; discriminate.
    - destruct Hin as [Hin|[Hin|[]]]; [discriminate|].
      injection Hin as <- <-. rewrite E. cbn. tauto. }
  destruct (cycle a mw token i) as [cevs [u|e]] eqn:Ec; cbn [fst snd] in *.
  2:{ exact Hc. }
  destruct (interval_sleep mw i) as [e|].
  { cbn [fst]. intros Hin. apply in_app_or in Hin.
    destruct Hin as [Hin|[Hin|[]]]; [exact (Hc Hin) | discriminate]. }
  specialize (IH (S i) k evs).
  destruct (main_loop a mw token fuel (S i)) as [evs' o]. cbn [fst] in *.
  intros Hin. apply in_app_or in Hin.
  destruct Hin as [Hin|[Hin|Hin]];
    [exact (Hc Hin) | discriminate | exact (IH Hin)].
Qed.

Lemma main_delivered (fuel k : nat) (evs : list delivery_event) :
  In (Delivered k evs) (fst (main a mw fuel)) ->
  truthy (token_of a mw) = true /\
  In (Delivered k evs) (fst (cycle a mw (token_of a mw) k)).
Proof.
  unfold main.
  destruct (truthy (token_of a mw)) eqn:Ht; cbn [negb].
  2:{ cbn. intros [Hin|[]]. discriminate. }
  intros Hin. split; [reflexivity|].
  assert (G : forall pre,
             (forall e, In e pre -> forall k' evs', e <> Delivered k' evs') ->
             In (Delivered k evs)
                (fst (if arg_loop a
                      then let '(evs', o) :=
                             main_loop a mw (token_of a mw) fuel 0 in
                           (pre ++ evs', o)
                      else match cycle a mw (token_of a mw) 0 with
                           | (evs', Raise e) => (pre ++ evs', MainRaised e)
                           | (evs', Ok _) => (pre ++ evs', MainReturned)
                           end)) ->
             In (Delivered k evs) (fst (cycle a mw (token_of a mw) k))).
  { intros pre Hpre Hin'.
    destruct (arg_loop a).
    - pose proof (main_loop_delivered (token_of a mw) fuel 0 k evs) as L.
      destruct (main_loop a mw (token_of a mw) fuel 0) as [evs' o].
      cbn [fst] in *. apply in_app_or in Hin'.
      destruct Hin' as [Hp|Hl]; [|exact (L Hl)].
      exfalso. exact (Hpre _ Hp k evs eq_refl).
    - pose proof (main_loop_delivered (token_of a mw) 1 0 k evs) as L.
      cbn [main_loop] in L.
      destruct (cycle a mw (token_of a mw) 0) as [evs' [u|e]];
        cbn [fst] in *; apply in_app_or in Hin';
        (destruct Hin' as [Hp|Hl];
         [exfalso; exact (Hpre _ Hp k evs eq_refl)|]).
      + destruct (interval_sleep mw 0); cbn [fst] in L;
          apply L; apply in_or_app; now left.
      + exact (L Hl). }
  destruct (prelim mw) as [[|]| |e].
  - apply (G [Prescan]); [|exact Hin].
    intros e [<-|[]] k' evs'. discriminate.
  - apply (G [Prescan; WarnNoAdverts]); [|exact Hin].
    intros e [<-|[<-|[]]] k' evs'; discriminate.
  - apply (G [Prescan; StderrBluetoothError]); [|exact Hin].
    intros e [<-|[<-|[]]] k' evs'; discriminate.
  - cbn in Hin. destruct Hin as [Hin|[]]. discriminate.
Qed.

(** The outcomes of [main]. *)
Lemma main_outcomes (fuel : nat) :
  (truthy (token_of a mw) = false /\
   main a mw fuel = ([StderrMissingToken], MainExit 2)) \/
  (truthy (token_of a mw) = true /\
   (forall status, snd (main a mw fuel) <> MainExit status) /\
   (arg_loop a = true -> snd (main a mw fuel) <> MainReturned) /\
   (arg_loop a = false -> snd (main a mw fuel) <> MainRunning) /\
   (snd (main a mw fuel) = MainRunning -> scans (fst (main a mw fuel)) = fuel) /\
   (scans (fst (main a mw fuel)) <= Nat.max 1 fuel)%nat /\
   (arg_loop a = false -> scans (fst (main a mw fuel)) <= 1)%nat /\
   (all_posts (fst (main a mw fuel))
    <= 5 * scans (fst (main a mw fuel)))%nat).
Proof.
  unfold main.
  destruct (truthy (token_of a mw)) eqn:Ht; cbn [negb]; [right | left; now split].
  split; [reflexivity|].
  assert (G : forall pre,
             scans pre = O -> all_posts pre = O ->
             let run :=
               if arg_loop a
               then let '(evs', o) :=
                      main_loop a mw (token_of a mw) fuel 0 in
                    (pre ++ evs', o)
               else match cycle a mw (token_of a mw) 0 with
                    | (evs', Raise e) => (pre ++ evs', MainRaised e)
                    | (evs', Ok _) => (pre ++ evs', MainReturned)
                    end in
             (forall status, snd run <> MainExit status) /\
             (arg_loop a = true -> snd run <> MainReturned) /\
             (arg_loop a = false -> snd run <> MainRunning) /\
             (snd run = MainRunning -> scans (fst run) = fuel) /\
             (scans (fst run) <= Nat.max 1 fuel)%nat /\
             (arg_loop a = false -> scans (fst run) <= 1)%nat /\
             (all_posts (fst run) <= 5 * scans (fst run))%nat).
  { intros pre Hs Hp. destruct (arg_loop a).
    - pose proof (main_loop_counts (token_of a mw) fuel 0) as L. cbv zeta in L.
      destruct (main_loop a mw (token_of a mw) fuel 0) as [evs' o].
      cbn [fst snd] in *. destruct L as (Ho & Hrun & Hle & Hposts).
      rewrite scans_app, all_posts_app, Hs, Hp. cbn [Nat.add].
      repeat split; try discriminate; try lia; try assumption.
      + intros st E. destruct Ho as [Ho|(e & Ho)]; congruence.
      + intros _ E. destruct Ho as [Ho|(e & Ho)]; congruence.
    - pose proof (cycle_counts (token_of a mw) 0) as [Hs' Hp'].
      destruct (cycle a mw (token_of a mw) 0) as [evs' [u|e]];
        cbn [fst snd] in *; rewrite scans_app, all_posts_app, Hs, Hp;
        cbn [Nat.add]; repeat split; try discriminate; lia. }
  destruct (prelim mw) as [[|]| |e].
  - apply (G [Prescan]); reflexivity.
  - apply (G [Prescan; WarnNoAdverts]); reflexivity.
  - apply (G [Prescan; StderrBluetoothError]); reflexivity.
  - cbn. repeat split; try discriminate; lia.
Qed.



(** X15. In loop mode [main] never returns: looked at for any number of
    cycles it has left through the missing token, has raised, or is still
    running, and when it is still running it has opened exactly one scan
    window per cycle.  Looking one cycle longer only adds events after those
    seen, and changes nothing once the run has ended. *)
Theorem main_loop_mode_never_returns (fuel : nat) :
  arg_loop a = true ->
  snd (main a mw fuel) <> MainReturned /\
  (snd (main a mw fuel) = MainRunning -> scans (fst (main a mw fuel)) = fuel) /\
  (exists more, fst (main a mw (S fuel)) = fst (main a mw fuel) ++ more) /\
  (snd (main a mw fuel) <> MainRunning -> main a mw (S fuel) = main a mw fuel).
Proof.
  intros Hloop.
  destruct (main_outcomes fuel) as [[Ht E]|(Ht & _ & Hret & _ & Hrun & _)].
  - rewrite E. cbn [fst snd].
    assert (E' : main a mw (S fuel) = ([StderrMissingToken], MainExit 2)).
    { destruct (main_outcomes (S fuel)) as [[_ E']|(Ht' & _)];
        [exact E' | congruence]. }
    rewrite E'. repeat split; try discriminate.
    exists []. reflexivity.
  - split; [exact (Hret Hloop)|]. split; [exact Hrun|].
    unfold main. rewrite Ht, Hloop. cbn [negb].
    destruct (main_loop_extends (token_of a mw) fuel 0) as [(more & Em) Hstay].
    destruct (prelim mw) as [[|]| |e];
      try (destruct (main_loop a mw (token_of a mw) (S fuel) 0) as [evs2 o2];
           destruct (main_loop a mw (token_of a mw) fuel 0) as [evs1 o1];
           cbn [fst snd] in *; split;
           [exists more; rewrite Em; now rewrite <- ?app_comm_cons
           | intros Hn; specialize (Hstay Hn); now injection Hstay as -> ->]).
    split; [exists []; reflexivity | reflexivity].
Qed.

(** X16. What [main] posts in a cycle is the batch that the scan window of
    this cycle returned: the batch is not empty, the token is there, every
    post of the cycle carries these lines joined by line feeds, and there
    are from 1 to 5 posts. *)
Theorem main_delivers_the_scanned_batch
        (fuel k : nat) (evs : list delivery_event) :
  In (Delivered k evs) (fst (main a mw fuel)) ->
  truthy (token_of a mw) = true /\
  exists l ls,
    snd (scan_once (scan_world mw k) (scan_args_of a) scan_start)
    = Ok (l :: ls) /\
    evs = fst (write_v2 (post_world mw k) (jitter_world mw k) (l :: ls)
                        (arg_url a) (arg_bucket a) (arg_org a)
                        (token_of a mw) 5 5) /\
    (1 <= attempts evs <= 5)%nat /\
    posts_of evs
    = map (fun i =>
             Post i (make_request
                       (join (String "010"%char EmptyString) (l :: ls))
                       (arg_url a) (arg_bucket a) (arg_org a)
                       (token_of a mw) 5))
          (seq 0 (attempts evs)).
Proof.
  intros Hin. destruct (main_delivered fuel k evs Hin) as [Ht Hc].
  split; [exact Ht|].
  destruct (cycle_cases (token_of a mw) k)
    as [(e & _ & E)|[(_ & E)|(l & ls & Hsc & E)]];
    rewrite E in Hc; cbn [fst In] in Hc.
  - destruct Hc as [Hc|[]]. discriminate.
  - destruct Hc as [Hc|[]]. discriminate.
  - destruct Hc as [Hc|[Hc|[]]]; [discriminate|].
    injection Hc as <-. exists l, ls. split; [exact Hsc|].
    split; [reflexivity|].
    destruct (write_v2_default_ok (post_world mw k) (jitter_world mw k)
                (l :: ls) (arg_url a) (arg_bucket a) (arg_org a)
                (token_of a mw)) as [_ Hn].
    split; [exact Hn|].
    unfold write_v2 in *.
    destruct (loop_shape (post_world mw k) (jitter_world mw k)
                (make_request (join (String "010"%char EmptyString) (l :: ls))
                              (arg_url a) (arg_bucket a) (arg_org a)
                              (token_of a mw) 5)
                5 (Z.to_nat 5) 0 ltac:(right; reflexivity))
      as (n & _ & _ & Hposts & _).
    rewrite Hposts. unfold attempts.
    match goal with
    | |- context [filter ?f ?l0] => change (filter f l0) with (posts_of l0)
    end.
    now rewrite Hposts, length_map, length_seq.
Qed.

(** X17. In every run of [main] there are at most five posts for each scan
    window that was opened; a run without [--loop] opens at most one scan
    window and is over, whatever number of cycles is looked at. *)
Theorem main_posts_at_most_five_per_scan (fuel : nat) :
  (all_posts (fst (main a mw fuel)) <= 5 * scans (fst (main a mw fuel)))%nat /\
  (arg_loop a = false ->
   (scans (fst (main a mw fuel)) <= 1)%nat /\
   snd (main a mw fuel) <> MainRunning /\
   main a mw fuel = main a mw 0).
Proof.
  destruct (main_outcomes fuel)
    as [[Ht E]|(Ht & _ & _ & Hnr & _ & _ & Hone & Hposts)].
  - rewrite E. cbn [fst snd]. split; [cbn; lia|].
    intros _. split; [cbn; lia|]. split; [discriminate|].
    destruct (main_outcomes 0) as [[_ E']|(Ht' & _)]; congruence.
  - split; [exact Hposts|]. intros Hloop.
    split; [exact (Hone Hloop)|]. split; [exact (Hnr Hloop)|].
    unfold main. now rewrite Hloop.
Qed.


End SchedulerFacts.



Lemma main_loop_mode_never_returns_witness :
  snd (@main example_runtime loop_args (sensor_world None) 2) <> MainReturned.
Proof.
  apply (proj1 (@main_loop_mode_never_returns example_runtime loop_args
                  (sensor_world None) 2 eq_refl)).
Defined.

(** The sensor is heard once in the first window: its line is posted once,
    to an endpoint that answers 204. *)
Lemma main_delivers_the_scanned_batch_witness :
  truthy (@token_of loop_args (sensor_world None)) = true.
Proof.
  refine (proj1 (@main_delivers_the_scanned_batch example_runtime loop_args
                   (sensor_world None) 1 0
                   (fst (write_v2 (always (Response 204)) half_jitter
                                  (@cb_lines example_runtime example_args
                                             example_detection)
                                  "http://127.0.0.1:8086" "sensors" "annie"
                                  "secret" 5 5)) _)).
  vm_compute. right. right. left. reflexivity.
Defined.

Lemma main_posts_at_most_five_per_scan_witness :
  (scans (fst (@main example_runtime default_args (sensor_world (Some "t"%string)) 7))
   <= 1)%nat.
Proof.
  apply (proj2 (@main_posts_at_most_five_per_scan example_runtime default_args
                  (sensor_world (Some "t"%string)) 7) eq_refl).
Defined.


(** ** The DS18B20 reader *)

Section Ds18b20Facts.
Local Open Scope string_scope.

(** X19. [parse_tags] never raises; an entry without an equals sign changes
    nothing, and the value under a key is the value of the last entry that
    sets this key, key and value being cut at the first equals sign and
    stripped; no key occurs twice. *)
Theorem parse_tags_last_entry_wins (tag_list : list string) :
  exists out,
    parse_tags tag_list = Ok out /\
    NoDup (map fst out) /\
    forall key, dict_get String.eqb out key = last_extra key tag_list.
Proof.
  change (parse_tags tag_list) with (extras_from [] tag_list).
  destruct (extras_from_ok [] tag_list (NoDup_nil _)) as (out & E & Hnd).
  exists out. split; [exact E|]. split; [exact Hnd|].
  intros key. rewrite (extras_from_lookup key tag_list [] out E).
  now destruct (last_extra key tag_list).
Qed.

Lemma lstrip_by_first (p : ascii -> bool) (s : string) :
  (forall c, first_char s = Some c -> p c = false) -> lstrip_by p s = s.
Proof.
  destruct s as [|c s]; [reflexivity|].
  intros Hf. cbn [lstrip_by]. now rewrite (Hf c eq_refl).
Qed.

Lemma rstrip_by_app_all (p : ascii -> bool) (s ws : string) :
  all_chars p ws = true -> rstrip_by p (s ++ ws) = rstrip_by p s.
Proof.
  intros Hws. induction s as [|x s IH].
  - cbn [append]. induction ws as [|c ws IHws]; [reflexivity|].
    cbn [all_chars] in Hws. apply andb_true_iff in Hws. destruct Hws as [Hc Hws].
    cbn [rstrip_by]. rewrite (IHws Hws). cbn. now rewrite Hc.
  - cbn [append rstrip_by]. now rewrite IH.
Qed.

Lemma rstrip_by_last (p : ascii -> bool) (s : string) :
  (forall c, last_char s = Some c -> p c = false) -> rstrip_by p s = s.
Proof.
  induction s as [|c s IH]; [reflexivity|].
  intros Hl. cbn [rstrip_by].
  destruct s as [|c' s'].
  - cbn. now rewrite (Hl c eq_refl).
  - rewrite IH by (intros c0 H0; apply Hl; exact H0). reflexivity.
Qed.

Lemma last_char_app (a : string) (c : ascii) (b : string) :
  last_char (a ++ String c b) = last_char (String c b).
Proof.
  induction a as [|x a IH]; [reflexivity|].
  cbn [append]. change (last_char (String x (a ++ String c b)))
    with (match a ++ String c b with
          | EmptyString => Some x
          | String _ _ => last_char (a ++ String c b)
          end).
  destruct (a ++ String c b) eqn:E; [|exact IH].
  destruct a; discriminate.
Qed.

(** A text with no line boundary in it is one line. *)
Lemma lines_from_one (s : string) :
  all_chars (fun c => negb (is_linebreak c)) s = true ->
  lines_from false s = match s with
                       | EmptyString => []
                       | String _ _ => [s]
                       end.
Proof.
  induction s as [|c s IH]; [reflexivity|].
  cbn [all_chars]. intros Hs. apply andb_true_iff in Hs. destruct Hs as [Hc Hs].
  apply negb_true_iff in Hc.
  cbn [lines_from andb]. rewrite Hc, (IH Hs). now destruct s.
Qed.

Lemma lines_from_two (l0 l1 : string) :
  all_chars (fun c => negb (is_linebreak c)) l0 = true ->
  all_chars (fun c => negb (is_linebreak c)) l1 = true ->
  l1 <> EmptyString ->
  lines_from false (l0 ++ String "010" l1) = [l0; l1].
Proof.
  intros H0 H1 Hne. induction l0 as [|c l0 IH].
  - cbn [append].
    change (lines_from false (String "010" l1))
      with (EmptyString :: lines_from false l1).
    rewrite (lines_from_one l1 H1). destruct l1; [congruence | reflexivity].
  - cbn [all_chars] in H0. apply andb_true_iff in H0. destruct H0 as [Hc H0].
    apply negb_true_iff in Hc.
    cbn [append lines_from andb]. rewrite Hc, (IH H0). reflexivity.
Qed.

Lemma rfind_none (s : string) :
  all_chars (fun c => negb (Ascii.eqb c "t")) s = true ->
  rfind "t=" s = None.
Proof.
  induction s as [|c s IH]; [reflexivity|].
  cbn [all_chars]. intros Hs. apply andb_true_iff in Hs. destruct Hs as [Hc Hs].
  apply negb_true_iff in Hc.
  cbn [rfind]. rewrite (IH Hs). cbn [prefix].
  destruct (Ascii.ascii_dec "t" c) as [<-|]; [discriminate | reflexivity].
Qed.

Lemma rfind_last (a b : string) :
  all_chars (fun c => negb (Ascii.eqb c "t")) b = true ->
  rfind "t=" (a ++ String "t" (String "=" b)) = Some (String.length a).
Proof.
  intros Hb. induction a as [|c a IH].
  - cbn [append String.length].
    change (rfind "t=" (String "t" (String "=" b)))
      with (match rfind "t=" (String "=" b) with
            | Some i => Some (S i)
            | None => if prefix "t=" (String "t" (String "=" b))
                      then Some O else None
            end).
    rewrite (rfind_none (String "=" b)) by exact Hb.
    cbn [prefix].
    destruct (Ascii.ascii_dec "t" "t"); [|congruence].
    destruct (Ascii.ascii_dec "=" "="); [|congruence].
    now rewrite prefix_empty.
  - cbn [append String.length].
    change (rfind "t=" (String c (a ++ String "t" (String "=" b))))
      with (match rfind "t=" (a ++ String "t" (String "=" b)) with
            | Some i => Some (S i)
            | None => if prefix "t=" (String c (a ++ String "t" (String "=" b)))
                      then Some O else None
            end).
    now rewrite IH.
Qed.

Lemma drop_app (a b : string) (n : nat) :
  drop (String.length a + n) (a ++ b) = drop n b.
Proof. induction a as [|c a IH]; [reflexivity | exact IH]. Qed.

(** The decimal text of a number: digits only, at least one, and read back
    as the same number. *)
Lemma string_of_uint_digits (d : Decimal.uint) :
  all_chars is_digit (NilEmpty.string_of_uint d) = true /\
  forall b, digit_run b (NilEmpty.string_of_uint d)
            = match d with
              | Decimal.Nil => if b then Some EmptyString else None
              | _ => Some (NilEmpty.string_of_uint d)
              end.
Proof.
  induction d as [|d [IHa IHr]|d [IHa IHr]|d [IHa IHr]|d [IHa IHr]|d [IHa IHr]
                  |d [IHa IHr]|d [IHa IHr]|d [IHa IHr]|d [IHa IHr]|d [IHa IHr]];
    (split; [try reflexivity; cbn [NilEmpty.string_of_uint all_chars];
             rewrite IHa; reflexivity|]);
    intros b; try reflexivity;
    cbn [NilEmpty.string_of_uint digit_run];
    match goal with
    | |- context [is_digit ?c] => change (is_digit c) with true
    end;
    cbv iota; rewrite (IHr true); now destruct d.
Qed.

Lemma digits_not_space (s : string) :
  all_chars is_digit s = true ->
  all_chars (fun c => negb (is_int_space c)) s = true /\
  all_chars (fun c => negb (Ascii.eqb c "t")) s = true /\
  all_chars (fun c => negb (is_space c)) s = true /\
  all_chars (fun c => negb (is_linebreak c)) s = true /\
  (forall c, first_char s = Some c ->
             Ascii.eqb c "+" = false /\ Ascii.eqb c "-" = false).
Proof.
  induction s as [|c s IH]; [repeat split; discriminate|].
  cbn [all_chars]. intros Hs. apply andb_true_iff in Hs. destruct Hs as [Hc Hs].
  destruct (IH Hs) as (I1 & I2 & I3 & I4 & _). rewrite I1, I2, I3, I4.
  assert (G : negb (is_int_space c) = true /\ negb (Ascii.eqb c "t") = true /\
              negb (is_space c) = true /\ negb (is_linebreak c) = true /\
              Ascii.eqb c "+" = false /\ Ascii.eqb c "-" = false).
  { revert Hc. destruct c as [[] [] [] [] [] [] [] []]; cbn;
      intros Hc; try discriminate; repeat split. }
  destruct G as (G1 & G2 & G3 & G4 & G5 & G6).
  rewrite G1, G2, G3, G4. repeat split; try assumption.
  - cbn in H. now injection H as <-.
  - cbn in H. now injection H as <-.
Qed.

Lemma all_chars_all (p : ascii -> bool) (s : string) :
  all_chars (fun c => negb (p c)) s = true ->
  (forall c, first_char s = Some c -> p c = false) /\
  (forall c, last_char s = Some c -> p c = false).
Proof.
  induction s as [|x s IH]; [split; discriminate|].
  cbn [all_chars]. intros Hs. apply andb_true_iff in Hs. destruct Hs as [Hx Hs].
  apply negb_true_iff in Hx. destruct (IH Hs) as [_ Hl]. split.
  - intros c E. cbn in E. now injection E as <-.
  - intros c E. destruct s as [|y s]; [cbn in E; now injection E as <-|].
    apply Hl. exact E.
Qed.

(** The text that Rocq prints for a number, as Python's [int] reads it. *)
Lemma str_of_int_shape (z : Z) :
  exists digits u,
    str_of_int z = (if (z <? 0)%Z then String "-" digits else digits) /\
    digits <> EmptyString /\
    all_chars is_digit digits = true /\
    digit_run false digits = Some digits /\
    NilEmpty.uint_of_string digits = Some u /\
    (if (z <? 0)%Z then - Z.of_uint u else Z.of_uint u) = z.
Proof.
  assert (G : forall d, d <> Decimal.Nil ->
                        NilZero.string_of_uint d = NilEmpty.string_of_uint d /\
                        NilEmpty.string_of_uint d <> EmptyString).
  { intros d Hd. destruct d; try congruence; split; try reflexivity;
      discriminate. }
  assert (Hp : forall p, Pos.to_uint p <> Decimal.Nil).
  { intros p E. pose proof (DecimalPos.Unsigned.of_to p) as Hof.
    rewrite E in Hof. discriminate. }
  pose proof (DecimalZ.of_to z) as Hz.
  unfold str_of_int. destruct z as [|p|p]; cbn [Z.to_int Z.ltb Z.compare] in *.
  - exists "0", (Decimal.D0 Decimal.Nil). repeat split. discriminate.
  - destruct (G _ (Hp p)) as [E Hne].
    destruct (string_of_uint_digits (Pos.to_uint p)) as [Hd Hr].
    exists (NilEmpty.string_of_uint (Pos.to_uint p)), (Pos.to_uint p).
    cbn [NilZero.string_of_int]. rewrite E.
    repeat split; try assumption.
    + rewrite Hr. destruct (Pos.to_uint p); [now contradiction (Hp p)|..];
        reflexivity.
    + apply NilEmpty.usu.
  - destruct (G _ (Hp p)) as [E Hne].
    destruct (string_of_uint_digits (Pos.to_uint p)) as [Hd Hr].
    exists (NilEmpty.string_of_uint (Pos.to_uint p)), (Pos.to_uint p).
    cbn [NilZero.string_of_int]. rewrite E.
    repeat split; try assumption.
    + rewrite Hr. destruct (Pos.to_uint p); [now contradiction (Hp p)|..];
        reflexivity.
    + apply NilEmpty.usu.
Qed.

(** [int(str(z))] is [z], up to the limit on the number of digits. *)
Lemma py_int_str_of_int (z : Z) :
  (String.length (str_of_int z) <= 4300)%nat ->
  py_int (str_of_int z) = Ok z.
Proof.
  intros Hlen.
  destruct (str_of_int_shape z) as (digits & u & E & Hne & Hd & Hr & Hu & Hz).
  destruct (digits_not_space digits Hd) as (Hsp & _ & _ & _ & Hsign).
  destruct (all_chars_all is_int_space digits Hsp) as [Hf Hl].
  unfold py_int. rewrite E in *.
  destruct (z <? 0)%Z.
  - rewrite lstrip_by_first by (intros c Hc; injection Hc as <-; reflexivity).
    rewrite rstrip_by_last.
    2:{ intros c Hc. destruct digits as [|x digits']; [congruence|].
        apply Hl. exact Hc. }
    change (Ascii.eqb "-" "+") with false. change (Ascii.eqb "-" "-") with true.
    cbv iota. rewrite Hr. cbn [String.length] in Hlen.
    replace (INT_MAX_STR_DIGITS <? String.length digits)%nat with false
      by (symmetry; apply Nat.ltb_ge; unfold INT_MAX_STR_DIGITS; lia).
    rewrite Hu. now rewrite Hz.
  - rewrite lstrip_by_first by exact Hf.
    rewrite rstrip_by_last by exact Hl.
    destruct digits as [|c digits']; [congruence|].
    destruct (Hsign c eq_refl) as [Hplus Hminus]. rewrite Hplus, Hminus.
    rewrite Hr.
    replace (INT_MAX_STR_DIGITS <? String.length (String c digits'))%nat
      with false
      by (symmetry; apply Nat.ltb_ge; unfold INT_MAX_STR_DIGITS; lia).
    rewrite Hu. now rewrite Hz.
Qed.

Lemma all_chars_app (p : ascii -> bool) (a b : string) :
  all_chars p (a ++ b) = all_chars p a && all_chars p b.
Proof.
  induction a as [|c a IH]; [reflexivity|].
  cbn [append all_chars]. now rewrite IH, andb_assoc.
Qed.

(** The decimal text of a number has no white space, no line boundary and
    no letter in it, and is not empty. *)
Lemma str_of_int_chars (z : Z) :
  str_of_int z <> EmptyString /\
  all_chars (fun c => negb (Ascii.eqb c "t")) (str_of_int z) = true /\
  all_chars (fun c => negb (is_linebreak c)) (str_of_int z) = true /\
  (forall c, last_char (str_of_int z) = Some c -> is_space c = false).
Proof.
  destruct (str_of_int_shape z) as (digits & u & E & Hne & Hd & _).
  destruct (digits_not_space digits Hd) as (_ & Ht & Hsp & Hlb & _).
  destruct (all_chars_all is_space digits Hsp) as [_ Hl].
  rewrite E. destruct (z <? 0)%Z.
  - split; [discriminate|]. cbn [all_chars]. rewrite Ht, Hlb.
    split; [reflexivity|]. split; [reflexivity|].
    intros c Hc. destruct digits as [|x digits']; [congruence|].
    apply Hl. exact Hc.
  - now repeat split.
Qed.

(** X20. [read_temp] reads back what the kernel driver writes: for a text of
    two lines, the first with [YES] in it, the second ending in [t=] and the
    decimal text of the number [mc] of millidegrees, followed by any white
    space, it returns [mc / 1000.0].  The text before [t=] does not matter,
    nor does an earlier [t=] in it. *)
Theorem read_temp_reads_millidegrees (l0 pre ws : string) (mc : Z) :
  contains "YES" l0 = true ->
  (forall c, first_char l0 = Some c -> is_space c = false) ->
  all_chars (fun c => negb (is_linebreak c)) l0 = true ->
  all_chars (fun c => negb (is_linebreak c)) pre = true ->
  all_chars is_space ws = true ->
  (String.length (str_of_int mc) <= 4300)%nat ->
  Z.abs mc < DBL_OVERFLOW ->
  exists f,
    float_of_int mc = Ok f /\
    read_temp (Ok (l0 ++ String "010" (pre ++ "t=" ++ str_of_int mc ++ ws)))
    = Some (f / 1000)%float.
Proof.
  intros Hyes Hfirst Hl0 Hpre Hws Hlen Habs.
  destruct (str_of_int_chars mc) as (Hne & Ht & Hlb & Hlast).
  set (S := str_of_int mc) in *.
  set (l1 := pre ++ String "t" (String "=" S)).
  assert (Etext : l0 ++ String "010" (pre ++ "t=" ++ S ++ ws)
                  = (l0 ++ String "010" l1) ++ ws).
  { unfold l1. rewrite !append_assoc. cbn [append].
    now rewrite !append_assoc. }
  assert (Hl0ne : l0 <> EmptyString) by (intros E; rewrite E in Hyes; discriminate).
  assert (Hstrip : strip ((l0 ++ String "010" l1) ++ ws) = l0 ++ String "010" l1).
  { unfold strip. rewrite lstrip_by_first.
    2:{ destruct l0 as [|c l0']; [congruence|]. exact Hfirst. }
    rewrite rstrip_by_app_all by exact Hws.
    apply rstrip_by_last. intros c Hc. apply Hlast.
    destruct S as [|x S'] eqn:ES; [congruence|].
    unfold l1 in Hc.
    replace (l0 ++ String "010" (pre ++ String "t" (String "=" (String x S'))))
      with ((l0 ++ String "010" (pre ++ "t=")) ++ String x S') in Hc
      by (rewrite !append_assoc; cbn [append]; now rewrite !append_assoc).
    now rewrite last_char_app in Hc. }
  assert (Hl1 : all_chars (fun c => negb (is_linebreak c)) l1 = true).
  { unfold l1. rewrite all_chars_app, Hpre. cbn [all_chars andb]. exact Hlb. }
  assert (Hl1ne : l1 <> EmptyString) by (unfold l1; destruct pre; discriminate).
  assert (Hf : exists f, float_of_int mc = Ok f).
  { unfold float_of_int.
    replace (Z.abs mc <? DBL_OVERFLOW)%Z with true
      by (symmetry; apply Z.ltb_lt; exact Habs). eauto. }
  destruct Hf as (f & Hf). exists f. split; [exact Hf|].
  unfold read_temp. cbn [bind]. rewrite Etext, Hstrip.
  unfold splitlines. rewrite (lines_from_two l0 l1 Hl0 Hl1 Hl1ne).
  rewrite Hyes. cbn [negb index nth_error bind].
  unfold l1 at 1. rewrite (rfind_last pre S Ht).
  unfold l1.
  replace (drop (String.length pre + 2) (pre ++ String "t" (String "=" S)))
    with S by (now rewrite drop_app).
  unfold S at 1. rewrite (py_int_str_of_int mc Hlen). cbn [bind].
  unfold int_truediv_float. rewrite Hf. reflexivity.
Qed.

(** X21. A text without a line boundary never gives a temperature, also
    when it has [YES] and [t=] in it: the reader looks for the value in the
    second line only, and the [IndexError] of the missing line is swallowed
    like every other exception. *)
Theorem read_temp_single_line_none (text : string) :
  all_chars (fun c => negb (is_linebreak c)) text = true ->
  read_temp (Ok text) = None.
Proof.
  intros Hall.
  destruct (strip_spec text) as (a & b & E & _ & _ & _).
  rewrite E, !all_chars_app in Hall.
  apply andb_true_iff in Hall. destruct Hall as [_ Hall].
  apply andb_true_iff in Hall. destruct Hall as [Hall _].
  unfold read_temp. cbn [bind]. unfold splitlines.
  rewrite (lines_from_one _ Hall).
  destruct (strip text) as [|c l0]; [reflexivity|].
  destruct (contains "YES" (String c l0)); reflexivity.
Qed.

End Ds18b20Facts.

(** The example of 23.125 degrees, with the line feed that ends the file. *)
Lemma read_temp_reads_millidegrees_witness :
  exists f,
    float_of_int 23125 = Ok f /\
    read_temp (Ok example_w1_slave) = Some (f / 1000)%float.
Proof.
  apply (read_temp_reads_millidegrees
           "72 01 4b 46 7f ff 0e 10 57 : crc=57 YES"
           "72 01 4b 46 7f ff 0e 10 57 "
           (String "010" EmptyString) 23125).
  - reflexivity.
  - intros c Hc. injection Hc as <-. reflexivity.
  - reflexivity.
  - reflexivity.
  - reflexivity.
  - vm_compute. lia.
  - vm_compute. reflexivity.
Defined.

(** A single line that has everything but the line feed. *)
Lemma read_temp_single_line_none_witness :
  read_temp (Ok "crc=57 YES t=23125"%string) = None.
Proof.
  apply (read_temp_single_line_none "crc=57 YES t=23125"%string). reflexivity.
Defined.
